(** * Pairwise distance kernels, metric-name resolution, Recall@K and
      positional removal of tensorflow_similarity, embedded in Rocq.

    The distance kernels are given twice.  Module [Distances] reads them
    over real numbers: the exact arithmetic their formulas denote, used for
    the shape of the results and for what the formulas compute.  Module
    [Float32] reads them over IEEE 754 binary32 values, as the code runs
    them, with rounding, overflow and NaN; what depends on these is stated
    there.  The scalars of Recall@K are means of 0/1 indicators and are
    read over real numbers, with NaN for the quotient 0/0.  A rank-2 tensor
    is a list of rows; the only place where the column count of an empty
    tensor matters ([tf.transpose]) receives it as an argument. *)

From Stdlib Require Import Reals Lra Lia ZArith Sorted.
From Stdlib Require Import SpecFloat.
From Stdlib Require Import Ascii String.
From stdpp Require Import base option list strings gmap.

(** ** Tensor primitives used by [distances.py] and [recall_at_k.py] *)

Module Tensor.
Local Open Scope R_scope.

Definition tensor1 := list R.
Definition tensor2 := list (list R).
Definition tensor3 := list (list (list R)).

(** [tf.reduce_sum] over a vector. *)
Definition reduce_sum (v : tensor1) : R := foldr Rplus 0 v.

(** Row-by-row contraction performed by [tf.linalg.matmul]. *)
Definition dot (u v : tensor1) : R := reduce_sum (zip_with Rmult u v).

(** [tf.linalg.matmul(a, b, transpose_b=True)]: entry (i, j) contracts row i
    of [a] with row j of [b]. *)
Definition matmul_transpose_b (a b : tensor2) : tensor2 :=
  map (fun r => map (fun c => dot r c) b) a.

(** [tf.reduce_sum(t, axis=1, keepdims=True)]: an N x D tensor becomes N x 1. *)
Definition reduce_sum_axis1_keepdims (t : tensor2) : tensor2 :=
  map (fun r => [reduce_sum r]) t.

(** [tf.math.square], elementwise. *)
Definition square (t : tensor2) : tensor2 := map (map (fun x => x * x)) t.

(** [tf.transpose] of a rank-2 tensor with [ncols] columns. *)
Definition transpose (ncols : nat) (t : tensor2) : tensor2 :=
  map (fun j => map (fun r => nth j r 0) t) (seq 0 ncols).

(** NumPy-style broadcasting along one axis: an axis of size 1 is stretched
    to the size of the other operand, otherwise the axes are walked
    together.  The kernels only combine the shapes N x 1, N x N and 1 x N
    (and N x 1 x D with 1 x N x D) derived from one batch, so the sizes that
    TensorFlow would reject never meet. *)
Definition bcast {A B C} (f : A -> B -> C) (l1 : list A) (l2 : list B)
  : list C :=
  match l1, l2 with
  | [x], _ => map (f x) l2
  | _, [y] => map (fun x => f x y) l1
  | _, _ => zip_with f l1 l2
  end.

(** Broadcasting binary operations on rank-2 and rank-3 tensors. *)
Definition bcast2 (f : R -> R -> R) : tensor2 -> tensor2 -> tensor2 :=
  bcast (bcast f).
Definition bcast3 (f : R -> R -> R) : tensor3 -> tensor3 -> tensor3 :=
  bcast (bcast (bcast f)).

(** A Python scalar combined with a tensor. *)
Definition scalar_mul (c : R) (t : tensor2) : tensor2 := map (map (Rmult c)) t.
Definition maximum (t : tensor2) (c : R) : tensor2 :=
  map (map (fun x => Rmax x c)) t.

(** [tf.math.greater_equal(t, c)] and the cast of its result to floats. *)
Definition Rgeb (x c : R) : bool := if Rle_dec c x then true else false.
Definition greater_equal (t : tensor2) (c : R) : list (list bool) :=
  map (map (fun x => Rgeb x c)) t.
Definition cast_float (b : bool) : R := if b then 1 else 0.
Definition cast (m : list (list bool)) : tensor2 := map (map cast_float) m.

Definition tsqrt (t : tensor2) : tensor2 := map (map sqrt) t.

(** [tf.expand_dims] of a rank-2 tensor at axis 1 (N x 1 x D) and axis 0
    (1 x N x D). *)
Definition expand_dims_1 (t : tensor2) : tensor3 := map (fun r => [r]) t.
Definition expand_dims_0 (t : tensor2) : tensor3 := [t].

(** [tf.norm(t, 1, axis=2)]: the sum of absolute values along the last
    axis. *)
Definition norm1_axis2 (t : tensor3) : tensor2 :=
  map (map (fun v => reduce_sum (map Rabs v))) t.

(** [tf.reshape(t, [tf.shape(t)[0], -1])] leaves a rank-2 tensor as it is. *)
Definition reshape_rows (t : tensor2) : tensor2 := t.

(** Reading entry [i][j] of a rank-2 tensor; [None] outside its shape. *)
Definition entry {A} (m : list (list A)) (i j : nat) : option A :=
  m !! i ≫= (fun row => row !! j).

End Tensor.

(** ** [distances.py], over real scalars *)

Module Distances.
Import Tensor.
Local Open Scope R_scope.

(** The concrete subclasses of [Distance] defined in the module, and a
    constructor for subclasses written by a user. *)
Inductive distance_class :=
| InnerProductSimilarity
| CosineDistance
| EuclideanDistance
| SquaredEuclideanDistance
| ManhattanDistance
| UserDefined (call : tensor2 -> tensor2).

(** A [Distance] object: its identity as a Python object, the two
    attributes set by [Distance.__init__], and its class. *)
Record Distance := mkDistance {
  oid : nat;
  name : string;
  aliases : list string;
  cls : distance_class
}.

Definition InnerProductSimilarity_call (embeddings : tensor2) : tensor2 :=
  let tensor := matmul_transpose_b embeddings embeddings in
  let sims := reduce_sum_axis1_keepdims tensor in
  sims.

Definition CosineDistance_call (embeddings : tensor2) : tensor2 :=
  let distances :=
    map (map (fun x => 1 - x)) (matmul_transpose_b embeddings embeddings) in
  let distances := maximum distances 0 in
  distances.

Definition eps : R := 1e-18.

Definition EuclideanDistance_call (embeddings : tensor2) : tensor2 :=
  let squared_norm := square embeddings in
  let squared_norm := reduce_sum_axis1_keepdims squared_norm in
  let distances := scalar_mul 2 (matmul_transpose_b embeddings embeddings) in
  let distances :=
    bcast2 Rplus (bcast2 Rminus squared_norm distances)
      (transpose 1 squared_norm) in
  let dist_mask := greater_equal distances eps in
  let distances := maximum distances eps in
  let distances := bcast2 Rmult (tsqrt distances) (cast dist_mask) in
  distances.

Definition SquaredEuclideanDistance_call (embeddings : tensor2) : tensor2 :=
  let squared_norm := square embeddings in
  let squared_norm := reduce_sum_axis1_keepdims squared_norm in
  let distances := scalar_mul 2 (matmul_transpose_b embeddings embeddings) in
  let distances :=
    bcast2 Rplus (bcast2 Rminus squared_norm distances)
      (transpose 1 squared_norm) in
  let distances := maximum distances 0 in
  distances.

Definition ManhattanDistance_call (embeddings : tensor2) : tensor2 :=
  let x_rs := reshape_rows embeddings in
  let deltas := bcast3 Rminus (expand_dims_1 x_rs) (expand_dims_0 x_rs) in
  let distances := norm1_axis2 deltas in
  distances.

(** [Distance.__call__]: dispatch to the [call] of the object's class. *)
Definition call (d : Distance) (embeddings : tensor2) : tensor2 :=
  match cls d with
  | InnerProductSimilarity => InnerProductSimilarity_call embeddings
  | CosineDistance => CosineDistance_call embeddings
  | EuclideanDistance => EuclideanDistance_call embeddings
  | SquaredEuclideanDistance => SquaredEuclideanDistance_call embeddings
  | ManhattanDistance => ManhattanDistance_call embeddings
  | UserDefined f => f embeddings
  end.

(** The instances created once when the module is loaded. *)
Definition inner_product_obj : Distance :=
  mkDistance 0 "inner_product" ["ip"] InnerProductSimilarity.
Definition euclidean_obj : Distance :=
  mkDistance 1 "euclidean" ["l2"; "pythagorean"] EuclideanDistance.
Definition squared_euclidean_obj : Distance :=
  mkDistance 2 "squared_euclidean" ["sql2"; "sqeuclidean"]
    SquaredEuclideanDistance.
Definition manhattan_obj : Distance :=
  mkDistance 3 "manhattan" ["l1"; "taxicab"] ManhattanDistance.
Definition cosine_obj : Distance :=
  mkDistance 4 "cosine" [] CosineDistance.

(** The quantities the kernels are meant to compute for a pair of vectors:
    the squared norm, the expansion ||u||^2 - 2 u.v + ||v||^2 of the squared
    distance, the squared L2 distance itself and the L1 distance. *)
Definition squared_norm (u : tensor1) : R :=
  reduce_sum (map (fun x => x * x) u).
Definition expansion (u v : tensor1) : R :=
  squared_norm u - 2 * dot u v + squared_norm v.
Definition l2_squared (u v : tensor1) : R :=
  squared_norm (zip_with Rminus u v).
Definition l1_distance (u v : tensor1) : R :=
  reduce_sum (map Rabs (zip_with Rminus u v)).

Definition DISTANCES : list Distance :=
  [ inner_product_obj; euclidean_obj; squared_euclidean_obj;
    manhattan_obj; cosine_obj ].

End Distances.

(** ** Python values and exceptions *)

Module Py.

Inductive exn :=
| ValueError (msg : string)
| KeyError (key : string)
| InvalidArgumentError
| IndexOutOfRangeError.

Inductive result (A : Type) :=
| Return (a : A)
| Raise (e : exn).
Arguments Return {A} a.
Arguments Raise {A} e.

Definition is_ValueError {A} (r : result A) : Prop :=
  match r with Raise (ValueError _) => True | _ => False end.

(** The characters [str.strip] removes, over the ASCII range. *)
Definition is_space (c : Ascii.ascii) : bool :=
  let n := nat_of_ascii c in
  ((9 <=? n)%nat && (n <=? 13)%nat) || ((28 <=? n)%nat && (n <=? 32)%nat).

(** [str.lower], over the ASCII range. *)
Definition lower_ascii (c : Ascii.ascii) : Ascii.ascii :=
  let n := nat_of_ascii c in
  if ((65 <=? n)%nat && (n <=? 90)%nat)%bool
  then ascii_of_nat (n + 32) else c.

Fixpoint lower (s : string) : string :=
  match s with
  | EmptyString => EmptyString
  | String c s' => String (lower_ascii c) (lower s')
  end.

Fixpoint lstrip (s : string) : string :=
  match s with
  | EmptyString => EmptyString
  | String c s' => if is_space c then lstrip s' else s
  end.

Fixpoint rstrip (s : string) : string :=
  match s with
  | EmptyString => EmptyString
  | String c s' =>
      match rstrip s' with
      | EmptyString => if is_space c then EmptyString else String c EmptyString
      | r => String c r
      end
  end.

Definition strip (s : string) : string := rstrip (lstrip s).

(** [seq[:k]] for a Python integer [k]: a negative [k] counts from the
    end. *)
Definition slice_to {A} (k : Z) (l : list A) : list A :=
  if (k <? 0)%Z then take (length l - Z.to_nat (- k)) l
  else take (Z.to_nat k) l.

End Py.

Module Canonicalizer.
Import Py Distances.

(** What a caller can pass as [user_distance]: a [Distance] object, a
    string, or a value of any other type. *)
Inductive py_value :=
| PyDistance (d : Distance)
| PyStr (s : string)
| PyOther.

(** The two dictionaries filled by the loop over the registry. *)
Definition add_aliases (canonical : string) (als : list string)
    (mapping : gmap string string) : gmap string string :=
  foldl (fun m alias => <[alias := canonical]> m) mapping als.

Definition add_distance (tables : gmap string string * gmap string Distance)
    (distance : Distance) : gmap string string * gmap string Distance :=
  let '(mapping, name2fn) := tables in
  let mapping := <[name distance := name distance]> mapping in
  let name2fn := <[name distance := distance]> name2fn in
  let mapping := add_aliases (name distance) (aliases distance) mapping in
  (mapping, name2fn).

Definition build_tables (registry : list Distance)
  : gmap string string * gmap string Distance :=
  foldl add_distance (∅, ∅) registry.

Definition unsupported_msg : string := "Metric not supported by the framework".
Definition unknown_msg : string :=
  "Unknown distance: must either be a MetricDistance                     or a known distance function".

Definition canonicalize_in (registry : list Distance)
    (user_distance : py_value) : result Distance :=
  match user_distance with
  | PyDistance d => Return d
  | PyStr s =>
      let '(mapping, name2fn) := build_tables registry in
      let user_distance := strip (lower s) in
      match mapping !! user_distance with
      | Some canonical =>
          match name2fn !! canonical with
          | Some d => Return d
          | None => Raise (KeyError canonical)
          end
      | None => Raise (ValueError unsupported_msg)
      end
  | PyOther =>
      Raise (ValueError unknown_msg)
  end.

Definition distance_canonicalizer : py_value -> result Distance :=
  canonicalize_in DISTANCES.

(** Every string a registry answers to: canonical names and aliases. *)
Definition names_of (registry : list Distance) : list string :=
  registry ≫= (fun d => name d :: aliases d).

End Canonicalizer.

(** ** [retrieval_metrics/recall_at_k.py] *)

Module Recall.
Import Py.
Local Open Scope R_scope.

(** A scalar float result: a real number, or NaN where TensorFlow divides
    zero by zero. *)
Inductive float :=
| Num (r : R)
| NaN.

Definition fadd (x y : float) : float :=
  match x, y with
  | Num a, Num b => Num (a + b)
  | _, _ => NaN
  end.

(** [tf.math.reduce_mean] of a vector; the mean of no element is NaN. *)
Definition reduce_mean (v : list R) : float :=
  match v with
  | [] => NaN
  | _ => Num (Tensor.reduce_sum v / INR (length v))
  end.

(** [tf.math.divide(x, n)] for a count [n].  In [compute] the count is zero
    only when the sum [x] is zero too, which gives NaN. *)
Definition divide (x : float) (n : nat) : float :=
  match n, x with
  | O, _ => NaN
  | _, Num a => Num (a / INR n)
  | _, NaN => NaN
  end.

(** [tf.math.reduce_any(t, axis=1)] on one row. *)
Definition reduce_any (row : list bool) : bool := existsb (fun b => b) row.

(** [tf.unique(x)[0]]: the distinct values in order of first occurrence. *)
Definition unique (l : list Z) : list Z :=
  foldl (fun seen x => if decide (x ∈ seen) then seen else seen ++ [x]) [] l.

(** [tf.where(query_labels == label)]: the positions holding [label],
    counted from [i]. *)
Fixpoint where_from (i : nat) (query_labels : list Z) (label : Z) : list nat :=
  match query_labels with
  | [] => []
  | x :: rest =>
      if decide (x = label) then i :: where_from (S i) rest label
      else where_from (S i) rest label
  end.

Definition where_eq (query_labels : list Z) (label : Z) : list nat :=
  where_from 0 query_labels label.

(** [tf.gather]: fails on an index outside the tensor. *)
Definition gather (v : list R) (idxs : list nat) : option (list R) :=
  mapM (fun i => v !! i) idxs.

(** The attributes of the metric object that [compute] reads. *)
Record RecallAtK := mkRecallAtK {
  k : Z;
  average : string
}.

(** The body of the [for label in class_labels] loop, threading
    [per_class_metrics]. *)
Fixpoint macro_loop (query_labels : list Z) (match_indicator : list R)
    (class_labels : list Z) (per_class_metrics : float) : result float :=
  match class_labels with
  | [] => Return per_class_metrics
  | label :: rest =>
      let idxs := where_eq query_labels label in
      match gather match_indicator idxs with
      | None => Raise InvalidArgumentError
      | Some c_slice =>
          macro_loop query_labels match_indicator rest
            (fadd per_class_metrics (reduce_mean c_slice))
      end
  end.

Definition unsupported_average (average : string) : string :=
  average +:+ " is not a supported average option".

Definition compute (self : RecallAtK) (query_labels : list Z)
    (match_mask : list (list bool)) : result float :=
  let k_slice := map (slice_to (k self)) match_mask in
  let match_indicator := map reduce_any k_slice in
  let match_indicator := map Tensor.cast_float match_indicator in
  if decide (average self = "micro") then
    Return (reduce_mean match_indicator)
  else if decide (average self = "macro") then
    let class_labels := unique query_labels in
    match macro_loop query_labels match_indicator class_labels (Num 0) with
    | Return per_class_metrics =>
        Return (divide per_class_metrics (length class_labels))
    | Raise e => Raise e
    end
  else Raise (ValueError (unsupported_average (average self))).

(** The quantities the metric is meant to report.  A query is a hit when one
    of its first [k] mask entries is true; the hit rate of a group of queries
    is the share of hits; the queries of a class are the rows whose label is
    that class. *)
Definition hit (k : Z) (row : list bool) : bool :=
  bool_decide (true ∈ take (Z.to_nat k) row).

Definition hit_rate (k : Z) (rows : list (list bool)) : R :=
  INR (length (filter (fun row => hit k row = true) rows))
  / INR (length rows).

Definition class_rows (c : Z) (query_labels : list Z)
    (match_mask : list (list bool)) : list (list bool) :=
  (filter (fun p => p.1 = c) (zip query_labels match_mask)).*2.

End Recall.

(** ** The store kept by the indexer *)

Module Indexer.
Import Py.

(** Modelled from the spec: the [Indexer] class
    (tensorflow_similarity/indexer/indexer.py) is not among the sources; only
    its tests are.  The store is the pair of parallel sequences
    [dataset_examples] and [dataset_labels]; the index is represented by the
    sequence of embeddings its graph is rebuilt from, node [i] standing for
    store position [i]. *)
Record Indexer (item embedding : Type) := mkIndexer {
  dataset_examples : list item;
  dataset_labels : list Z;
  index_embeddings : list embedding
}.
Arguments mkIndexer {item embedding}.
Arguments dataset_examples {item embedding}.
Arguments dataset_labels {item embedding}.
Arguments index_embeddings {item embedding}.

Definition size {item embedding} (self : Indexer item embedding) : nat :=
  length (dataset_labels self).

(** Modelled from the spec: [Indexer.remove(position)] removes from the store
    and from the index together, shifting later positions down by one, and
    is valid only for [0 <= position < size]; any other position fails with
    [IndexOutOfRangeError]. *)
Definition remove {item embedding} (position : Z)
    (self : Indexer item embedding) : result (Indexer item embedding) :=
  if decide (0 <= position < Z.of_nat (size self))%Z then
    let i := Z.to_nat position in
    Return (mkIndexer (delete i (dataset_examples self))
                      (delete i (dataset_labels self))
                      (delete i (index_embeddings self)))
  else Raise IndexOutOfRangeError.

(** The store and the index hold one entry per position. *)
Definition consistent {item embedding} (self : Indexer item embedding)
  : Prop :=
  length (dataset_examples self) = length (dataset_labels self)
  /\ length (index_embeddings self) = length (dataset_labels self).

End Indexer.

(** ** The kernels in 32-bit floating point

    [distances.py] runs on [tf.float32] tensors.  This module repeats the
    kernels over IEEE 754 binary32 values (24 bits of precision, infinities
    at exponent 128), with rounding to nearest even, overflow to infinity
    and NaN as the operations of [SpecFloat] define them.  It is the reading
    used where rounding, overflow or NaN decide a property. *)

Module Float32.
Import Tensor.

Definition prec : Z := 24.
Definition emax : Z := 128.

Definition float32 := spec_float.
Definition ftensor1 := list float32.
Definition ftensor2 := list (list float32).
Definition ftensor3 := list (list (list float32)).

Definition add : float32 -> float32 -> float32 := SFadd prec emax.
Definition sub : float32 -> float32 -> float32 := SFsub prec emax.
Definition mul : float32 -> float32 -> float32 := SFmul prec emax.
Definition fsqrt : float32 -> float32 := SFsqrt prec emax.
Definition fabs : float32 -> float32 := SFabs.

Definition zero : float32 := S754_zero false.
Definition one : float32 := S754_finite false 8388608 (-23).
Definition two : float32 := S754_finite false 8388608 (-22).

(** The literal [1e-18] converted to binary32: 9671407 * 2^-83. *)
Definition eps : float32 := S754_finite false 9671407 (-83).

Definition is_nan (x : float32) : bool :=
  match x with S754_nan => true | _ => false end.

(** [x >= c] on floats: false when either side is NaN. *)
Definition geb (x c : float32) : bool := SFleb c x.

(** [tf.math.maximum(x, c)] on one entry: NaN when either side is NaN,
    otherwise the larger value. *)
Definition fmax (x c : float32) : float32 :=
  if is_nan x || is_nan c then S754_nan
  else if SFltb x c then c else x.

(** The real number a finite binary32 value stands for (0 for the
    others). *)
Definition F2R (x : float32) : R :=
  match x with
  | S754_finite s m e =>
      (IZR (cond_Zopp s (Zpos m))
       * match e with
         | Z0 => 1
         | Zpos p => IZR (Z.pow_pos 2 p)
         | Zneg p => / IZR (Z.pow_pos 2 p)
         end)%R
  | _ => 0%R
  end.

(** [tf.reduce_sum] over a vector.  TensorFlow does not fix the order of the
    additions; they are taken from left to right.  A vector of one entry is
    that entry. *)
Definition reduce_sum (v : ftensor1) : float32 :=
  match v with
  | [] => zero
  | x :: rest => foldl add x rest
  end.

(** One entry of [tf.linalg.matmul]: each product is rounded, then the
    products are added. *)
Definition dot (u v : ftensor1) : float32 := reduce_sum (zip_with mul u v).

Definition matmul_transpose_b (a b : ftensor2) : ftensor2 :=
  map (fun r => map (fun c => dot r c) b) a.

Definition reduce_sum_axis1_keepdims (t : ftensor2) : ftensor2 :=
  map (fun r => [reduce_sum r]) t.

Definition square (t : ftensor2) : ftensor2 := map (map (fun x => mul x x)) t.

Definition transpose (ncols : nat) (t : ftensor2) : ftensor2 :=
  map (fun j => map (fun r => nth j r zero) t) (seq 0 ncols).

Definition bcast2 (f : float32 -> float32 -> float32)
  : ftensor2 -> ftensor2 -> ftensor2 := bcast (bcast f).
Definition bcast3 (f : float32 -> float32 -> float32)
  : ftensor3 -> ftensor3 -> ftensor3 := bcast (bcast (bcast f)).

Definition scalar_mul (c : float32) (t : ftensor2) : ftensor2 :=
  map (map (mul c)) t.
Definition scalar_minus (c : float32) (t : ftensor2) : ftensor2 :=
  map (map (sub c)) t.
Definition maximum (t : ftensor2) (c : float32) : ftensor2 :=
  map (map (fun x => fmax x c)) t.
Definition greater_equal (t : ftensor2) (c : float32) : list (list bool) :=
  map (map (fun x => geb x c)) t.
Definition cast_float (b : bool) : float32 := if b then one else zero.
Definition cast (m : list (list bool)) : ftensor2 := map (map cast_float) m.
Definition tsqrt (t : ftensor2) : ftensor2 := map (map fsqrt) t.

Definition expand_dims_1 (t : ftensor2) : ftensor3 := map (fun r => [r]) t.
Definition expand_dims_0 (t : ftensor2) : ftensor3 := [t].
Definition norm1_axis2 (t : ftensor3) : ftensor2 :=
  map (map (fun v => reduce_sum (map fabs v))) t.
Definition reshape_rows (t : ftensor2) : ftensor2 := t.

Definition CosineDistance_call (embeddings : ftensor2) : ftensor2 :=
  let distances :=
    scalar_minus one (matmul_transpose_b embeddings embeddings) in
  let distances := maximum distances zero in
  distances.

(** [squared_norm - distances + tf.transpose(squared_norm)] of the two
    Euclidean kernels. *)
Definition expansion_matrix (embeddings : ftensor2) : ftensor2 :=
  let squared_norm := square embeddings in
  let squared_norm := reduce_sum_axis1_keepdims squared_norm in
  let distances :=
    scalar_mul two (matmul_transpose_b embeddings embeddings) in
  bcast2 add (bcast2 sub squared_norm distances) (transpose 1 squared_norm).

Definition EuclideanDistance_call (embeddings : ftensor2) : ftensor2 :=
  let distances := expansion_matrix embeddings in
  let dist_mask := greater_equal distances eps in
  let distances := maximum distances eps in
  let distances := bcast2 mul (tsqrt distances) (cast dist_mask) in
  distances.

Definition SquaredEuclideanDistance_call (embeddings : ftensor2) : ftensor2 :=
  let distances := expansion_matrix embeddings in
  let distances := maximum distances zero in
  distances.

Definition ManhattanDistance_call (embeddings : ftensor2) : ftensor2 :=
  let x_rs := reshape_rows embeddings in
  let deltas := bcast3 sub (expand_dims_1 x_rs) (expand_dims_0 x_rs) in
  let distances := norm1_axis2 deltas in
  distances.

(** The expansion of one pair of vectors, as the kernels round it. *)
Definition squared_norm (u : ftensor1) : float32 :=
  reduce_sum (map (fun x => mul x x) u).
Definition expansion (u v : ftensor1) : float32 :=
  add (sub (squared_norm u) (mul two (dot u v))) (squared_norm v).




Definition batch_close : ftensor2 :=
  [[S754_finite false 12582912 (-34)]; [S754_finite false 12582915 (-34)]].

End Float32.

(** ** Further methods of [Distance] and the checks of the indexer tests *)

Module DistanceObject.
Import Distances.

(** [Distance.__str__]: the canonical name. *)
Definition str (d : Distance) : string := name d.

End DistanceObject.

Module TableInvariant.
Import Distances.

(** What the loop of [distance_canonicalizer] keeps true of its two
    dictionaries: every value of [mapping] is a key of [name2fn], and every
    value of [name2fn] is an object with property [P] stored under its own
    name. *)
Definition tables_ok (P : Distance -> Prop)
    (tables : gmap string string * gmap string Distance) : Prop :=
  (forall t c, tables.1 !! t = Some c -> is_Some (tables.2 !! c))
  /\ (forall c d, tables.2 !! c = Some d -> P d /\ name d = c).

(** A string that [str.lstrip] leaves alone: empty, or starting with a
    character that is not white space. *)
Definition head_ok (s : string) : Prop :=
  match s with
  | EmptyString => True
  | String c _ => Py.is_space c = false
  end.

End TableInvariant.

Module IndexerTests.
Local Open Scope R_scope.

Definition Rgtb (x y : R) : bool := if Rlt_dec y x then true else false.

(** The inner loop of [test_multiple_examples_find] over one neighbour list,
    given by the distances of its entries: the flag is cleared when an entry
    is farther than its successor. *)
Fixpoint check_list (neighbor_list : list R) (neighbors_sorted : bool)
  : bool :=
  match neighbor_list with
  | x :: ((y :: _) as rest) =>
      check_list rest (if Rgtb x y then false else neighbors_sorted)
  | _ => neighbors_sorted
  end.

(** The outer loop, starting from [neighbors_sorted = True]. *)
Definition neighbors_sorted (neighbors : list (list R)) : bool :=
  foldl (fun flag neighbor_list => check_list neighbor_list flag)
    true neighbors.

End IndexerTests.

(** * Properties *)

(** ** Broadcasting and reductions *)

Section TensorFacts.
Import Tensor.
Local Open Scope R_scope.

Lemma bcast_singleton_l {A B C} (f : A -> B -> C) x l :
  bcast f [x] l = map (f x) l.
Proof. reflexivity. Qed.

Lemma bcast_singleton_r {A B C} (f : A -> B -> C) l y :
  bcast f l [y] = map (fun x => f x y) l.
Proof. destruct l as [|a [|b l]]; reflexivity. Qed.

Lemma bcast_same_length {A B C} (f : A -> B -> C) l1 l2 :
  length l1 = length l2 -> bcast f l1 l2 = zip_with f l1 l2.
Proof.
  destruct l1 as [|a [|a' l1]], l2 as [|b [|b' l2]]; simpl; intros H;
    try discriminate; reflexivity.
Qed.

Lemma zip_with_map_same {X A B C} (f : A -> B -> C) (g : X -> A) (h : X -> B)
    (l : list X) :
  zip_with f (map g l) (map h l) = map (fun x => f (g x) (h x)) l.
Proof. induction l as [|x l IH]; simpl; [reflexivity | now rewrite IH]. Qed.

(** A column combined with a matrix that has as many rows. *)
Lemma bcast2_col_mat {X Y} (f : R -> R -> R) (g : X -> R) (h : X -> Y -> R)
    (l : list X) (l' : list Y) :
  bcast2 f (map (fun x => [g x]) l) (map (fun x => map (h x) l') l)
  = map (fun x => map (fun y => f (g x) (h x y)) l') l.
Proof.
  unfold bcast2. rewrite bcast_same_length by now rewrite !length_map.
  rewrite zip_with_map_same. apply map_ext; intros x.
  rewrite bcast_singleton_l. now rewrite map_map.
Qed.

(** A matrix combined with a single row that has as many columns. *)
Lemma bcast2_mat_row {X Y} (f : R -> R -> R) (h : X -> Y -> R) (g : Y -> R)
    (l : list X) (l' : list Y) :
  bcast2 f (map (fun x => map (h x) l') l) [map g l']
  = map (fun x => map (fun y => f (h x y) (g y)) l') l.
Proof.
  unfold bcast2. rewrite bcast_singleton_r, map_map.
  apply map_ext; intros x.
  rewrite bcast_same_length by now rewrite !length_map.
  apply zip_with_map_same.
Qed.

(** Two matrices of the same shape. *)
Lemma bcast2_mat_mat {X Y} (f : R -> R -> R) (h h' : X -> Y -> R)
    (l : list X) (l' : list Y) :
  bcast2 f (map (fun x => map (h x) l') l) (map (fun x => map (h' x) l') l)
  = map (fun x => map (fun y => f (h x y) (h' x y)) l') l.
Proof.
  unfold bcast2. rewrite bcast_same_length by now rewrite !length_map.
  rewrite zip_with_map_same. apply map_ext; intros x.
  rewrite bcast_same_length by now rewrite !length_map.
  apply zip_with_map_same.
Qed.

Lemma transpose_column {X} (g : X -> R) (l : list X) :
  transpose 1 (map (fun x => [g x]) l) = [map g l].
Proof. unfold transpose; simpl. now rewrite map_map. Qed.

Lemma reduce_sum_nonneg (v : tensor1) :
  Forall (fun x => 0 <= x) v -> 0 <= reduce_sum v.
Proof.
  unfold reduce_sum. induction 1 as [|x v Hx _ IH]; simpl; lra.
Qed.

Lemma reduce_sum_abs_nonneg (v : tensor1) : 0 <= reduce_sum (map Rabs v).
Proof.
  apply reduce_sum_nonneg. apply Forall_forall. intros x Hx.
  apply list_elem_of_In, in_map_iff in Hx as (y & <- & _). apply Rabs_pos.
Qed.

Lemma entry_pairwise {X A} (f : X -> X -> A) (e : list X) i j ei ej :
  e !! i = Some ei -> e !! j = Some ej ->
  entry (map (fun x => map (f x) e) e) i j = Some (f ei ej).
Proof.
  intros Hi Hj. unfold entry.
  rewrite list_lookup_fmap, Hi. simpl.
  now rewrite list_lookup_fmap, Hj.
Qed.

Lemma pairwise_shape {X A} (f : X -> X -> A) (e : list X) :
  length (map (fun x => map (f x) e) e) = length e /\
  Forall (fun row => length row = length e) (map (fun x => map (f x) e) e).
Proof.
  split; [now rewrite length_map|].
  apply Forall_forall. intros row Hrow.
  apply list_elem_of_In, in_map_iff in Hrow as (x & <- & _).
  now rewrite length_map.
Qed.

End TensorFacts.

(** ** The kernels as pairwise maps over the batch *)

Section KernelFacts.
Import Tensor Distances.
Local Open Scope R_scope.

Lemma inner_product_rows (e : tensor2) :
  InnerProductSimilarity_call e
  = map (fun ei => [reduce_sum (map (fun ek => dot ei ek) e)]) e.
Proof.
  unfold InnerProductSimilarity_call, reduce_sum_axis1_keepdims,
    matmul_transpose_b.
  now rewrite map_map.
Qed.

Lemma cosine_pairwise (e : tensor2) :
  CosineDistance_call e
  = map (fun ei => map (fun ej => Rmax (1 - dot ei ej) 0) e) e.
Proof.
  unfold CosineDistance_call, maximum, matmul_transpose_b.
  rewrite !map_map. apply map_ext; intros ei. now rewrite !map_map.
Qed.

(** The broadcast sum [squared_norm - distances + transpose(squared_norm)]
    shared by the two Euclidean kernels. *)
Lemma expansion_pairwise (e : tensor2) :
  bcast2 Rplus
    (bcast2 Rminus (reduce_sum_axis1_keepdims (square e))
       (scalar_mul 2 (matmul_transpose_b e e)))
    (transpose 1 (reduce_sum_axis1_keepdims (square e)))
  = map (fun ei => map (fun ej => expansion ei ej) e) e.
Proof.
  unfold reduce_sum_axis1_keepdims, square, scalar_mul, matmul_transpose_b.
  rewrite !map_map.
  replace (map (fun x => map (Rmult 2) (map (fun c => dot x c) e)) e)
    with (map (fun x => map (fun c => 2 * dot x c) e) e)
    by (apply map_ext; intros x; now rewrite map_map).
  rewrite (bcast2_col_mat Rminus (fun x => reduce_sum (map (fun y => y * y) x))
             (fun x c => 2 * dot x c)).
  rewrite (transpose_column (fun x => reduce_sum (map (fun y => y * y) x))).
  rewrite (bcast2_mat_row Rplus
             (fun x c => reduce_sum (map (fun y => y * y) x) - 2 * dot x c)
             (fun x => reduce_sum (map (fun y => y * y) x))).
  reflexivity.
Qed.

Lemma squared_euclidean_pairwise (e : tensor2) :
  SquaredEuclideanDistance_call e
  = map (fun ei => map (fun ej => Rmax (expansion ei ej) 0) e) e.
Proof.
  unfold SquaredEuclideanDistance_call. rewrite expansion_pairwise.
  unfold maximum. rewrite map_map. apply map_ext; intros ei.
  now rewrite map_map.
Qed.

Lemma euclidean_pairwise (e : tensor2) :
  EuclideanDistance_call e
  = map (fun ei => map (fun ej =>
        sqrt (Rmax (expansion ei ej) eps)
        * cast_float (Rgeb (expansion ei ej) eps)) e) e.
Proof.
  unfold EuclideanDistance_call. rewrite expansion_pairwise.
  unfold maximum, tsqrt, cast, greater_equal. rewrite !map_map.
  replace (map (fun x => map sqrt
             (map (fun x0 => Rmax x0 eps) (map (fun ej => expansion x ej) e))) e)
    with (map (fun x => map (fun ej => sqrt (Rmax (expansion x ej) eps)) e) e)
    by (apply map_ext; intros x; now rewrite !map_map).
  replace (map (fun x => map cast_float
             (map (fun x0 => Rgeb x0 eps) (map (fun ej => expansion x ej) e))) e)
    with (map (fun x => map
             (fun ej => cast_float (Rgeb (expansion x ej) eps)) e) e)
    by (apply map_ext; intros x; now rewrite !map_map).
  apply (bcast2_mat_mat Rmult).
Qed.

Lemma manhattan_pairwise (e : tensor2) :
  ManhattanDistance_call e
  = map (fun ei => map (fun ej =>
        reduce_sum (map Rabs (bcast Rminus ei ej))) e) e.
Proof.
  unfold ManhattanDistance_call, reshape_rows, bcast3, expand_dims_1,
    expand_dims_0, norm1_axis2.
  rewrite bcast_singleton_r, !map_map. apply map_ext; intros ei.
  rewrite bcast_singleton_l. now rewrite map_map.
Qed.

(** The masked square root: the root when the argument reaches [eps], and
    zero below. *)
Lemma masked_sqrt_ge (d : R) :
  eps <= d -> sqrt (Rmax d eps) * cast_float (Rgeb d eps) = sqrt d.
Proof.
  intros H. unfold Rgeb. destruct (Rle_dec eps d) as [_|n]; [|contradiction].
  rewrite Rmax_left by exact H. simpl. lra.
Qed.

Lemma masked_sqrt_lt (d : R) :
  d < eps -> sqrt (Rmax d eps) * cast_float (Rgeb d eps) = 0.
Proof.
  intros H. unfold Rgeb. destruct (Rle_dec eps d) as [l|_]; [lra|].
  simpl. lra.
Qed.

(** For vectors of one dimension the expansion is the squared L2
    distance. *)
Lemma expansion_l2_squared (u v : tensor1) :
  length u = length v -> expansion u v = l2_squared u v.
Proof.
  unfold expansion, l2_squared, squared_norm, dot, reduce_sum.
  revert v. induction u as [|a u IH]; intros [|b v] Hlen;
    try discriminate; simpl; [lra|].
  specialize (IH v ltac:(simpl in Hlen; lia)). lra.
Qed.

Lemma eps_pos : 0 < eps.
Proof. unfold eps. lra. Qed.

End KernelFacts.

(** ** Claims about the distance kernels *)

Section KernelClaims.
Import Tensor Distances.
Local Open Scope R_scope.

(** The cosine, Euclidean, squared Euclidean and Manhattan kernels return an
    N x N matrix for a batch of N vectors. *)
Lemma pairwise_kernels_square (d : Distance) (e : tensor2) :
  In d [cosine_obj; euclidean_obj; squared_euclidean_obj; manhattan_obj] ->
  length (call d e) = length e /\
  Forall (fun row => length row = length e) (call d e).
Proof.
  simpl. intros [<-|[<-|[<-|[<-|[]]]]]; unfold call; simpl.
  - rewrite cosine_pairwise. apply pairwise_shape.
  - rewrite euclidean_pairwise. apply pairwise_shape.
  - rewrite squared_euclidean_pairwise. apply pairwise_shape.
  - rewrite manhattan_pairwise. apply pairwise_shape.
Qed.

(** Entry (i, j) of the squared Euclidean and Manhattan kernels, for vectors
    of one dimension, is the squared L2 and the L1 distance of the pair. *)
Lemma squared_euclidean_entry (e : tensor2) i j ei ej :
  e !! i = Some ei -> e !! j = Some ej -> length ei = length ej ->
  entry (call squared_euclidean_obj e) i j = Some (l2_squared ei ej).
Proof.
  intros Hi Hj Hlen. unfold call; simpl. rewrite squared_euclidean_pairwise.
  rewrite (entry_pairwise (fun x y => Rmax (expansion x y) 0) e i j ei ej Hi Hj).
  f_equal. rewrite expansion_l2_squared by exact Hlen.
  apply Rmax_left. unfold l2_squared, squared_norm.
  apply reduce_sum_nonneg, Forall_forall. intros x Hx.
  apply list_elem_of_In, in_map_iff in Hx as (y & <- & _). nra.
Qed.

Lemma manhattan_entry (e : tensor2) i j ei ej :
  e !! i = Some ei -> e !! j = Some ej -> length ei = length ej ->
  entry (call manhattan_obj e) i j = Some (l1_distance ei ej).
Proof.
  intros Hi Hj Hlen. unfold call; simpl. rewrite manhattan_pairwise.
  rewrite (entry_pairwise
             (fun x y => reduce_sum (map Rabs (bcast Rminus x y))) e i j ei ej
             Hi Hj).
  unfold l1_distance. now rewrite bcast_same_length.
Qed.

(** C1 (the code departs from the claim): on the batch of the two unit
    vectors of dimension 2 the inner-product kernel returns the 2 x 1 column
    [[1]; [1]], so the result has no entry [0][1] and is not the 2 x 2 matrix
    of pairwise inner products. *)
Theorem inner_product_result_is_a_column :
  call inner_product_obj [[1; 0]; [0; 1]] = [[1]; [1]]
  /\ entry (call inner_product_obj [[1; 0]; [0; 1]]) 0 1 = None
  /\ entry (matmul_transpose_b [[1; 0]; [0; 1]] [[1; 0]; [0; 1]]) 0 1
     = Some (dot [1; 0] [0; 1]).
Proof.
  assert (H : call inner_product_obj [[1; 0]; [0; 1]] = [[1]; [1]]).
  { unfold call; simpl. rewrite inner_product_rows. unfold dot, reduce_sum.
    simpl. repeat f_equal; lra. }
  split; [exact H|]. split; [now rewrite H|reflexivity].
Qed.

(** C7: for every batch the inner-product kernel returns one row per vector
    i holding the single value sum over k of dot(e_i, e_k); every row has
    exactly one entry, so the result is not a pairwise matrix, and the
    values exceed any bound. *)
Theorem inner_product_is_row_sum :
  (forall e : tensor2,
      call inner_product_obj e
      = map (fun ei => [reduce_sum (map (fun ek => dot ei ek) e)]) e)
  /\ (forall e : tensor2,
      length (call inner_product_obj e) = length e
      /\ Forall (fun row => length row = 1%nat) (call inner_product_obj e))
  /\ (forall B : R, exists (e : tensor2) (r : R),
      entry (call inner_product_obj e) 0 0 = Some r /\ B < r).
Proof.
  split; [|split].
  - intros e. unfold call; simpl. apply inner_product_rows.
  - intros e. unfold call; simpl. rewrite inner_product_rows.
    split; [now rewrite length_map|].
    apply Forall_forall. intros row Hrow.
    apply list_elem_of_In, in_map_iff in Hrow as (x & <- & _). reflexivity.
  - intros B. exists [[B * B + 1]], ((B * B + 1) * (B * B + 1) + 0 + 0).
    split; [reflexivity|]. nra.
Qed.

(** The Euclidean kernel on the vectors (3, 0) and (0, 4): distance 5. *)
Example euclidean_3_4_5 :
  entry (call euclidean_obj [[3; 0]; [0; 4]]) 0 1 = Some 5.
Proof.
  unfold call; simpl. rewrite euclidean_pairwise.
  rewrite (entry_pairwise _ [[3; 0]; [0; 4]] 0 1 [3; 0] [0; 4])
    by reflexivity.
  f_equal.
  assert (Hx : expansion [3; 0] [0; 4] = 5 * 5).
  { unfold expansion, squared_norm, dot, reduce_sum. simpl. lra. }
  rewrite masked_sqrt_ge by (rewrite Hx; unfold eps; lra).
  rewrite Hx. apply sqrt_square. lra.
Qed.

End KernelClaims.

(** ** The lookup tables and [distance_canonicalizer] *)

Section CanonicalizerClaims.
Import Py Distances Canonicalizer.

Lemma add_aliases_lookup (c : string) (als : list string)
    (m : gmap string string) (t : string) :
  add_aliases c als m !! t
  = if decide (t ∈ als) then Some c else m !! t.
Proof.
  unfold add_aliases. revert m.
  induction als as [|a als IH]; intros m; simpl; [reflexivity|].
  rewrite IH. destruct (decide (t = a)) as [->|Hne].
  - rewrite lookup_insert_eq.
    rewrite (decide_True (P := a ∈ a :: als)) by apply list_elem_of_here.
    now destruct (decide (a ∈ als)).
  - rewrite lookup_insert_ne by congruence.
    destruct (decide (t ∈ als)) as [Hin|Hnin].
    + now rewrite decide_True by now apply list_elem_of_further.
    + rewrite decide_False; [reflexivity|].
      intros [?|?]%elem_of_cons; contradiction.
Qed.

Lemma add_distance_lookup_None (m : gmap string string)
    (f : gmap string Distance) (d : Distance) (t : string) :
  (add_distance (m, f) d).1 !! t = None
  <-> m !! t = None /\ t ∉ name d :: aliases d.
Proof.
  simpl. rewrite add_aliases_lookup.
  destruct (decide (t ∈ aliases d)) as [Hin|Hnin].
  - split; [discriminate|]. intros [_ Hn]. exfalso. apply Hn.
    now apply list_elem_of_further.
  - destruct (decide (t = name d)) as [->|Hne].
    + rewrite lookup_insert_eq. split; [discriminate|].
      intros [_ Hn]. exfalso. apply Hn, list_elem_of_here.
    + rewrite lookup_insert_ne by congruence.
      split; [|tauto]. intros H. split; [exact H|].
      intros [?|?]%elem_of_cons; contradiction.
Qed.

(** After the loop over the registry a string is a key of [mapping] exactly
    when it is a canonical name or an alias. *)
Lemma build_tables_lookup_None (registry : list Distance)
    (tables : gmap string string * gmap string Distance) (t : string) :
  (foldl add_distance tables registry).1 !! t = None
  <-> tables.1 !! t = None /\ t ∉ names_of registry.
Proof.
  revert tables. induction registry as [|d ds IH]; intros [m f].
  - simpl. split; [|tauto]. intros H. split; [exact H|]. apply not_elem_of_nil.
  - change (foldl add_distance (m, f) (d :: ds))
      with (foldl add_distance (add_distance (m, f) d) ds).
    rewrite IH, add_distance_lookup_None.
    change (names_of (d :: ds)) with ((name d :: aliases d) ++ names_of ds).
    rewrite elem_of_app. cbn [fst]. tauto.
Qed.

Lemma unsupported_iff (s : string) :
  is_ValueError (distance_canonicalizer (PyStr s))
  <-> strip (lower s) ∉ names_of DISTANCES.
Proof.
  pose proof (build_tables_lookup_None DISTANCES (∅, ∅) (strip (lower s)))
    as Hnone.
  unfold distance_canonicalizer, canonicalize_in.
  fold (build_tables DISTANCES) in Hnone.
  destruct (build_tables DISTANCES) as [mapping name2fn] eqn:Htab.
  simpl in Hnone.
  destruct (mapping !! strip (lower s)) as [canonical|] eqn:Hlook.
  - assert (Hin : strip (lower s) ∈ names_of DISTANCES).
    { destruct (decide (strip (lower s) ∈ names_of DISTANCES)) as [H|H];
        [exact H|].
      assert (Hcontra : Some canonical = None)
        by (apply Hnone; split; [apply lookup_empty|exact H]).
      discriminate. }
    split; [|intros H; contradiction].
    destruct (name2fn !! canonical); simpl; intros [].
  - simpl. split; [|trivial]. intros _. now apply Hnone.
Qed.

(** A name or alias of the registry resolves to the registered object that
    carries it. *)
Lemma known_name_resolves (s : string) :
  strip (lower s) ∈ names_of DISTANCES ->
  exists d, distance_canonicalizer (PyStr s) = Return d
    /\ d ∈ DISTANCES /\ strip (lower s) ∈ name d :: aliases d.
Proof.
  intros Hin. unfold distance_canonicalizer, canonicalize_in.
  remember (strip (lower s)) as t eqn:Ht. clear Ht.
  change (names_of DISTANCES)
    with ["inner_product"; "ip"; "euclidean"; "l2"; "pythagorean";
          "squared_euclidean"; "sql2"; "sqeuclidean"; "manhattan"; "l1";
          "taxicab"; "cosine"] in Hin.
  repeat (apply elem_of_cons in Hin as [->|Hin];
    [eexists; split; [vm_compute; reflexivity|];
     split; [unfold DISTANCES|]; set_solver|]).
  now apply elem_of_nil in Hin.
Qed.

(** C6: strings are lower-cased, trimmed and looked up among the canonical
    names and aliases, so "l2", "L2" and "euclidean" give the one registered
    Euclidean object; the lookup fails with the unsupported-metric
    [ValueError] exactly for strings that, once normalised, are neither a
    canonical name nor an alias (such as "not_a_metric") and for arguments
    that are neither a string nor a [Distance]. *)
Theorem canonicalizer_resolution :
  distance_canonicalizer (PyStr "l2") = Return euclidean_obj
  /\ distance_canonicalizer (PyStr "L2") = Return euclidean_obj
  /\ distance_canonicalizer (PyStr "euclidean") = Return euclidean_obj
  /\ distance_canonicalizer (PyStr "  TaxiCab ") = Return manhattan_obj
  /\ distance_canonicalizer (PyStr "not_a_metric")
     = Raise (ValueError unsupported_msg)
  /\ distance_canonicalizer PyOther = Raise (ValueError unknown_msg)
  /\ (forall s : string,
        ((strip (lower s) ∈ names_of DISTANCES)
         /\ exists d, distance_canonicalizer (PyStr s) = Return d
              /\ d ∈ DISTANCES /\ strip (lower s) ∈ name d :: aliases d)
        \/ ((strip (lower s) ∉ names_of DISTANCES)
            /\ distance_canonicalizer (PyStr s)
               = Raise (ValueError unsupported_msg)))
  /\ (forall x : py_value,
        is_ValueError (distance_canonicalizer x)
        <-> (exists s, x = PyStr s /\ (strip (lower s) ∉ names_of DISTANCES))
            \/ x = PyOther).
Proof.
  repeat (split; [vm_compute; reflexivity|]). split.
  - intros s.
    destruct (decide (strip (lower s) ∈ names_of DISTANCES)) as [Hin|Hnin].
    + left. split; [exact Hin|]. now apply known_name_resolves.
    + right. split; [exact Hnin|].
      apply unsupported_iff in Hnin. revert Hnin.
      unfold distance_canonicalizer, canonicalize_in.
      destruct (build_tables DISTANCES) as [mapping name2fn].
      destruct (mapping !! strip (lower s)) as [c|]; [|reflexivity].
      destruct (name2fn !! c); intros [].
  - intros [d|s|].
    + simpl. split; [intros []|].
      intros [(s & Hs & _)|Hs]; discriminate Hs.
    + rewrite unsupported_iff. split.
      * intros H. left. now exists s.
      * intros [(s' & Hs & H)|Hs]; [|discriminate Hs].
        now injection Hs as ->.
    + simpl. split; [intros _; now right|trivial].
Qed.

(** C10: a [Distance] object is returned as it is, whether or not it is one
    of the registered objects, so resolving the result of a successful
    resolution gives that result again. *)
Theorem canonicalizer_idempotent (x : py_value) (d : Distance) :
  distance_canonicalizer x = Return d ->
  distance_canonicalizer (PyDistance d) = distance_canonicalizer x
  /\ (forall d' : Distance, distance_canonicalizer (PyDistance d') = Return d')
  /\ (exists d' : Distance,
        (d' ∉ DISTANCES)
        /\ distance_canonicalizer (PyDistance d') = Return d').
Proof.
  intros Hx. split; [now rewrite Hx|]. split; [reflexivity|].
  exists (mkDistance 5 "euclidean" ["l2"; "pythagorean"] EuclideanDistance).
  split; [|reflexivity].
  unfold DISTANCES. intros H.
  repeat (apply elem_of_cons in H as [H|H]; [discriminate H|]).
  now apply elem_of_nil in H.
Qed.

Lemma canonicalizer_idempotent_witness :
  distance_canonicalizer (PyStr "L2") = Return euclidean_obj
  /\ distance_canonicalizer (PyDistance euclidean_obj)
     = distance_canonicalizer (PyStr "L2").
Proof.
  split; [vm_compute; reflexivity|].
  apply (canonicalizer_idempotent (PyStr "L2") euclidean_obj).
  vm_compute; reflexivity.
Defined.

End CanonicalizerClaims.

(** ** Recall@K *)

Section RecallFacts.
Import Py Recall.
Local Open Scope R_scope.

Lemma reduce_any_elem (row : list bool) :
  reduce_any row = bool_decide (true ∈ row).
Proof.
  unfold reduce_any. induction row as [|b row IH]; cbn [existsb].
  - symmetry. apply bool_decide_eq_false_2, not_elem_of_nil.
  - destruct b; cbn [orb].
    + symmetry. apply bool_decide_eq_true_2, list_elem_of_here.
    + rewrite IH. apply bool_decide_ext. rewrite elem_of_cons.
      split; [tauto|]. intros [H|H]; [discriminate H|exact H].
Qed.

Lemma indicator_hit (k : Z) (row : list bool) :
  (0 <= k)%Z -> reduce_any (slice_to k row) = hit k row.
Proof.
  intros Hk. unfold slice_to, hit.
  destruct (k <? 0)%Z eqn:E; [apply Z.ltb_lt in E; lia|].
  apply reduce_any_elem.
Qed.

(** A query is a hit exactly when some mask entry of rank below [k] is
    true. *)
Lemma hit_iff (k : Z) (row : list bool) :
  hit k row = true
  <-> exists j : nat, (Z.of_nat j < k)%Z /\ row !! j = Some true.
Proof.
  unfold hit. rewrite bool_decide_eq_true, list_elem_of_lookup.
  split; intros (j & Hj).
  - apply lookup_take_Some in Hj as [Hj Hlt]. exists j. split; [lia|exact Hj].
  - destruct Hj as [Hlt Hj]. exists j. apply lookup_take_Some.
    split; [exact Hj|lia].
Qed.

Lemma match_indicator_eq (k : Z) (mask : list (list bool)) :
  (0 <= k)%Z ->
  map Tensor.cast_float (map reduce_any (map (slice_to k) mask))
  = map (fun row => Tensor.cast_float (hit k row)) mask.
Proof.
  intros Hk. rewrite !map_map. apply map_ext. intros row.
  now rewrite indicator_hit.
Qed.

(** The indicators of a group of queries sum to its number of hits. *)
Lemma sum_indicator (k : Z) (rows : list (list bool)) :
  Tensor.reduce_sum (map (fun row => Tensor.cast_float (hit k row)) rows)
  = INR (length (filter (fun row => hit k row = true) rows)).
Proof.
  unfold Tensor.reduce_sum.
  induction rows as [|row rows IH]; simpl; [reflexivity|].
  rewrite IH, filter_cons. destruct (hit k row) eqn:E.
  - rewrite decide_True by reflexivity.
    change (length (row :: filter (fun row => hit k row = true) rows))
      with (S (length (filter (fun row => hit k row = true) rows))).
    rewrite S_INR. simpl. lra.
  - rewrite decide_False by discriminate. simpl. lra.
Qed.

Lemma reduce_mean_indicator (k : Z) (rows : list (list bool)) :
  rows <> [] ->
  reduce_mean (map (fun row => Tensor.cast_float (hit k row)) rows)
  = Num (hit_rate k rows).
Proof.
  intros Hne. unfold reduce_mean, hit_rate.
  rewrite sum_indicator, length_map.
  destruct rows; [contradiction|reflexivity].
Qed.

End RecallFacts.

Section RecallLoop.
Import Py Recall.
Local Open Scope R_scope.

(** Gathering the indicator at the positions of a label selects the
    indicator values of the queries of that label, in order. *)
Lemma gather_where (c : Z) (labels : list Z) (ind pre : list R) :
  length labels = length ind ->
  gather (pre ++ ind) (where_from (length pre) labels c)
  = Some ((filter (fun p => p.1 = c) (zip labels ind)).*2).
Proof.
  revert ind pre.
  induction labels as [|x r IH]; intros [|a ind] pre Hlen;
    try discriminate Hlen; [reflexivity|].
  injection Hlen as Hlen.
  specialize (IH ind (pre ++ [a]) Hlen).
  rewrite length_app, <- app_assoc in IH. cbn [length app] in IH.
  replace (length pre + 1)%nat with (S (length pre)) in IH by lia.
  cbn [where_from zip_with]. rewrite filter_cons. cbn [fst].
  destruct (decide (x = c)) as [Heq|Hne].
  - unfold gather in *. cbn [mapM].
    rewrite list_lookup_middle by reflexivity. cbn [mbind option_bind].
    rewrite IH. reflexivity.
  - exact IH.
Qed.

Lemma select_map {A B} (g : A -> B) (c : Z) (labels : list Z) (rows : list A) :
  (filter (fun p => p.1 = c) (zip labels (map g rows))).*2
  = map g ((filter (fun p => p.1 = c) (zip labels rows)).*2).
Proof.
  revert rows. induction labels as [|x r IH]; intros [|a rows];
    try reflexivity.
  cbn [map zip_with]. rewrite !filter_cons. cbn [fst].
  destruct (decide (x = c)); cbn [fmap list_fmap snd map];
    rewrite IH; reflexivity.
Qed.

Lemma class_rows_nonempty (c : Z) (labels : list Z)
    (mask : list (list bool)) :
  length labels = length mask -> c ∈ labels -> class_rows c labels mask <> [].
Proof.
  unfold class_rows. revert mask.
  induction labels as [|x r IH]; intros [|row mask] Hlen Hin;
    try discriminate Hlen.
  - now apply elem_of_nil in Hin.
  - injection Hlen as Hlen. cbn [zip_with]. rewrite filter_cons. cbn [fst].
    destruct (decide (x = c)) as [Heq|Hne]; [discriminate|].
    apply IH; [exact Hlen|].
    apply elem_of_cons in Hin as [Hin|Hin]; [congruence|exact Hin].
Qed.

(** One class contributes its hit rate to [per_class_metrics]. *)
Lemma class_mean (k : Z) (c : Z) (labels : list Z) (mask : list (list bool)) :
  length labels = length mask -> c ∈ labels ->
  exists c_slice,
    gather (map (fun row => Tensor.cast_float (hit k row)) mask)
      (where_eq labels c) = Some c_slice
    /\ reduce_mean c_slice = Num (hit_rate k (class_rows c labels mask)).
Proof.
  intros Hlen Hin. eexists. split.
  - apply (gather_where c labels
             (map (fun row => Tensor.cast_float (hit k row)) mask) []).
    now rewrite length_map.
  - rewrite select_map. apply reduce_mean_indicator.
    now apply class_rows_nonempty.
Qed.

Lemma macro_loop_sum (k : Z) (labels : list Z) (mask : list (list bool))
    (class_labels : list Z) (acc : R) :
  length labels = length mask ->
  Forall (fun c => c ∈ labels) class_labels ->
  macro_loop labels (map (fun row => Tensor.cast_float (hit k row)) mask)
    class_labels (Num acc)
  = Return (Num (acc + Tensor.reduce_sum
      (map (fun c => hit_rate k (class_rows c labels mask)) class_labels))).
Proof.
  intros Hlen Hall. revert acc.
  induction Hall as [|c cl Hc _ IH]; intros acc.
  - simpl. do 2 f_equal. unfold Tensor.reduce_sum. simpl. lra.
  - cbn [macro_loop].
    destruct (class_mean k c labels mask Hlen Hc) as (sl & -> & ->).
    cbn [fadd]. rewrite IH. do 2 f_equal.
    unfold Tensor.reduce_sum. simpl. lra.
Qed.

(** [unique] keeps each label once. *)
Lemma unique_acc (l seen : list Z) :
  NoDup seen ->
  NoDup (foldl (fun seen x => if decide (x ∈ seen) then seen else seen ++ [x])
           seen l)
  /\ forall c,
      c ∈ foldl (fun seen x => if decide (x ∈ seen) then seen else seen ++ [x])
            seen l
      <-> c ∈ seen \/ c ∈ l.
Proof.
  revert seen. induction l as [|x l IH]; intros seen Hnd.
  - simpl. split; [exact Hnd|]. intros c. rewrite elem_of_nil. tauto.
  - cbn [foldl]. destruct (decide (x ∈ seen)) as [Hin|Hnin].
    + destruct (IH seen Hnd) as [H1 H2]. split; [exact H1|].
      intros c. rewrite H2, elem_of_cons.
      split; [tauto|]. intros [H|[->|H]]; tauto.
    + assert (Hnd' : NoDup (seen ++ [x])).
      { apply NoDup_app. split; [exact Hnd|]. split.
        - intros y Hy Hy'. apply list_elem_of_singleton in Hy'. congruence.
        - apply NoDup_singleton. }
      destruct (IH _ Hnd') as [H1 H2]. split; [exact H1|].
      intros c. rewrite H2, elem_of_app, list_elem_of_singleton, elem_of_cons.
      tauto.
Qed.

Lemma unique_spec (l : list Z) :
  NoDup (unique l) /\ forall c, c ∈ unique l <-> c ∈ l.
Proof.
  destruct (unique_acc l [] (NoDup_nil_2)) as [H1 H2].
  split; [exact H1|]. intros c. unfold unique. rewrite H2, elem_of_nil. tauto.
Qed.

End RecallLoop.

Section RecallClaims.
Import Py Recall.
Local Open Scope R_scope.

Lemma compute_micro (self : RecallAtK) (query_labels : list Z)
    (match_mask : list (list bool)) :
  average self = "micro" -> (0 <= k self)%Z -> match_mask <> [] ->
  compute self query_labels match_mask
  = Return (Num (hit_rate (k self) match_mask)).
Proof.
  intros Havg Hk Hne. unfold compute.
  rewrite decide_True by exact Havg.
  rewrite match_indicator_eq by exact Hk.
  now rewrite reduce_mean_indicator.
Qed.

Lemma compute_macro (self : RecallAtK) (query_labels : list Z)
    (match_mask : list (list bool)) :
  average self = "macro" -> (0 <= k self)%Z ->
  length query_labels = length match_mask -> query_labels <> [] ->
  compute self query_labels match_mask
  = Return (Num (Tensor.reduce_sum
      (map (fun c => hit_rate (k self) (class_rows c query_labels match_mask))
         (unique query_labels))
      / INR (length (unique query_labels)))).
Proof.
  intros Havg Hk Hlen Hne. unfold compute.
  rewrite decide_False by (rewrite Havg; discriminate).
  rewrite decide_True by exact Havg.
  rewrite match_indicator_eq by exact Hk.
  destruct (unique_spec query_labels) as [_ Hmem].
  rewrite macro_loop_sum; [|exact Hlen|].
  2:{ apply Forall_forall. intros c Hc. now apply Hmem. }
  destruct (unique query_labels) as [|c cl] eqn:Hu.
  - destruct query_labels as [|x r]; [contradiction|].
    exfalso. apply (not_elem_of_nil x), Hmem, list_elem_of_here.
  - cbn [divide length]. do 2 f_equal. lra.
Qed.

Lemma macro_loop_no_ValueError (labels : list Z) (ind : list R)
    (class_labels : list Z) (acc : float) :
  ~ is_ValueError (macro_loop labels ind class_labels acc).
Proof.
  revert acc. induction class_labels as [|c cl IH]; intros acc; simpl.
  - tauto.
  - destruct (gather ind (where_eq labels c)); [apply IH|simpl; tauto].
Qed.

(** Turns the counts of a concrete hit rate into integer literals. *)
Ltac literal_counts :=
  repeat match goal with
  | |- context [Z.of_nat ?n] =>
      let z := eval vm_compute in (Z.of_nat n) in
      change (Z.of_nat n) with z
  end.

Lemma hit_rate_count (k : Z) (rows : list (list bool)) (h n : nat) :
  length (filter (fun row => hit k row = true) rows) = h ->
  length rows = n ->
  hit_rate k rows = IZR (Z.of_nat h) / IZR (Z.of_nat n).
Proof.
  intros <- <-. unfold hit_rate. now rewrite !INR_IZR_INZ.
Qed.

(** C5: with average "micro" the per-query indicator is 1 exactly when one
    of the first k mask entries of the query's row is true, and the result
    is the mean of the indicators over all queries, that is the number of
    hits divided by the number of queries; ten queries with seven hits give
    0.7. *)
Theorem recall_micro (self : RecallAtK) (query_labels : list Z)
    (match_mask : list (list bool)) :
  average self = "micro" -> (0 <= k self)%Z -> match_mask <> [] ->
  compute self query_labels match_mask
  = Return (Num (INR (length (filter (fun row => hit (k self) row = true)
                                match_mask))
                 / INR (length match_mask)))
  /\ (forall row : list bool,
        hit (k self) row = true
        <-> exists j : nat, (Z.of_nat j < k self)%Z /\ row !! j = Some true)
  /\ compute (mkRecallAtK 1 "micro") (replicate 10 0%Z)
       (replicate 7 [true] ++ replicate 3 [false])
     = Return (Num 0.7).
Proof.
  intros Havg Hk Hne. split; [now apply compute_micro|].
  split; [intros row; apply hit_iff|].
  rewrite compute_micro by (try reflexivity; try discriminate; simpl; lia).
  do 2 f_equal.
  rewrite (hit_rate_count _ _ 7 10) by reflexivity. literal_counts. lra.
Qed.

Lemma recall_micro_witness :
  average (mkRecallAtK 1 "micro") = "micro"
  /\ (0 <= k (mkRecallAtK 1 "micro"))%Z
  /\ [[false; true]; [true; false]; [false; false]] <> []
  /\ compute (mkRecallAtK 1 "micro") [4; 4; 9]%Z
       [[false; true]; [true; false]; [false; false]]
     = Return (Num (INR 1 / INR 3)).
Proof.
  split; [reflexivity|]. split; [simpl; lia|]. split; [discriminate|].
  apply (recall_micro (mkRecallAtK 1 "micro") [4; 4; 9]%Z
           [[false; true]; [true; false]; [false; false]]);
    [reflexivity | simpl; lia | discriminate].
Defined.

(** C4: with average "macro" the queries are grouped by label, each label
    contributes the mean of the indicator over its queries, and the result
    is the plain mean of these per-label means, whatever the class sizes;
    two classes with hit rates 1.0 and 0.5 give 0.75, as do three and two
    queries with four hits in all, where the micro average is 0.8. *)
Theorem recall_macro (self : RecallAtK) (query_labels : list Z)
    (match_mask : list (list bool)) :
  average self = "macro" -> (0 <= k self)%Z ->
  length query_labels = length match_mask -> query_labels <> [] ->
  compute self query_labels match_mask
  = Return (Num (Tensor.reduce_sum
      (map (fun c => hit_rate (k self) (class_rows c query_labels match_mask))
         (unique query_labels))
      / INR (length (unique query_labels))))
  /\ NoDup (unique query_labels)
  /\ (forall c : Z, c ∈ unique query_labels <-> c ∈ query_labels)
  /\ (forall a b : Z,
        unique query_labels = [a; b] ->
        hit_rate (k self) (class_rows a query_labels match_mask) = 1 ->
        hit_rate (k self) (class_rows b query_labels match_mask) = 0.5 ->
        compute self query_labels match_mask = Return (Num 0.75))
  /\ compute (mkRecallAtK 1 "macro") [0; 0; 0; 1; 1]%Z
       [[true]; [true]; [true]; [true]; [false]]
     = Return (Num 0.75)
  /\ compute (mkRecallAtK 1 "micro") [0; 0; 0; 1; 1]%Z
       [[true]; [true]; [true]; [true]; [false]]
     = Return (Num 0.8).
Proof.
  intros Havg Hk Hlen Hne.
  split; [now apply compute_macro|].
  split; [apply unique_spec|]. split; [apply unique_spec|].
  split; [|split].
  - intros a b Hu Ha Hb. rewrite compute_macro by assumption.
    rewrite Hu. cbn [map length]. rewrite Ha, Hb.
    unfold Tensor.reduce_sum. simpl. do 2 f_equal. lra.
  - rewrite compute_macro by (try reflexivity; try discriminate; simpl; lia).
    change (unique [0; 0; 0; 1; 1]%Z) with [0; 1]%Z.
    cbn [map length k].
    rewrite (hit_rate_count 1 (class_rows 0 _ _) 3 3) by reflexivity.
    rewrite (hit_rate_count 1 (class_rows 1 _ _) 1 2) by reflexivity.
    literal_counts. unfold Tensor.reduce_sum. cbn [foldr INR].
    do 2 f_equal. lra.
  - rewrite compute_micro by (try reflexivity; try discriminate; simpl; lia).
    rewrite (hit_rate_count _ _ 4 5) by reflexivity.
    literal_counts. do 2 f_equal. lra.
Qed.

Lemma recall_macro_witness :
  average (mkRecallAtK 1 "macro") = "macro"
  /\ (0 <= k (mkRecallAtK 1 "macro"))%Z
  /\ length [7; 3; 7]%Z = length [[true]; [false]; [false]]
  /\ [7; 3; 7]%Z <> []
  /\ NoDup (unique [7; 3; 7]%Z).
Proof.
  split; [reflexivity|]. split; [simpl; lia|]. split; [reflexivity|].
  split; [discriminate|].
  apply (recall_macro (mkRecallAtK 1 "macro") [7; 3; 7]%Z
           [[true]; [false]; [false]]);
    [reflexivity | simpl; lia | reflexivity | discriminate].
Defined.

(** C9: [compute] raises the unsupported-average [ValueError] if and only if
    the configured average is neither "micro" nor "macro". *)
Theorem unsupported_average_iff (self : RecallAtK) (query_labels : list Z)
    (match_mask : list (list bool)) :
  (compute self query_labels match_mask
   = Raise (ValueError (unsupported_average (average self)))
   <-> average self <> "micro" /\ average self <> "macro")
  /\ (is_ValueError (compute self query_labels match_mask)
      <-> average self <> "micro" /\ average self <> "macro").
Proof.
  unfold compute.
  destruct (decide (average self = "micro")) as [Hmi|Hmi].
  - split; (split; [intros H; try discriminate H; destruct H | tauto]).
  - destruct (decide (average self = "macro")) as [Hma|Hma].
    + pose proof (macro_loop_no_ValueError query_labels
        (map Tensor.cast_float
           (map reduce_any (map (slice_to (k self)) match_mask)))
        (unique query_labels) (Num 0)) as Hno.
      destruct (macro_loop _ _ _ _) as [r|e].
      * split; (split; [intros H; try discriminate H; destruct H | tauto]).
      * split; (split; [|tauto]).
        -- intros H. injection H as ->. simpl in Hno. tauto.
        -- intros H. tauto.
    + split; (split; [tauto|intros _]); [reflexivity|exact I].
Qed.

End RecallClaims.

(** ** Positional removal *)

Section IndexerClaims.
Import Py Indexer.
Context {item embedding : Type}.
Implicit Types self : Indexer item embedding.

Lemma delete_first {A} (l : list A) : delete 0 l = drop 1 l.
Proof. destruct l; reflexivity. Qed.

Lemma delete_last {A} (l : list A) (n : nat) :
  length l = S n -> delete n l = take n l.
Proof.
  intros Hlen. rewrite delete_take_drop, drop_ge by lia.
  apply app_nil_r.
Qed.

Lemma remove_in_range self (i : nat) :
  i < size self ->
  remove (Z.of_nat i) self
  = Return (mkIndexer (delete i (dataset_examples self))
                      (delete i (dataset_labels self))
                      (delete i (index_embeddings self))).
Proof.
  intros Hi. unfold remove. rewrite decide_True by lia.
  now rewrite Nat2Z.id.
Qed.

Lemma remove_out_of_range self (position : Z) :
  (position < 0 \/ Z.of_nat (size self) <= position)%Z ->
  remove position self = Raise IndexOutOfRangeError.
Proof. intros H. unfold remove. now rewrite decide_False by lia. Qed.

(** C3: removing a valid position [i] deletes entry [i] of the examples and
    of the labels and moves every later entry down by one; removing position
    0 and then position N-2 of a store of N items leaves the middle N-2
    items in their order. *)
Theorem remove_shifts self (i : nat) :
  consistent self -> i < size self ->
  exists self',
    remove (Z.of_nat i) self = Return self'
    /\ dataset_examples self' = delete i (dataset_examples self)
    /\ dataset_labels self' = delete i (dataset_labels self)
    /\ size self' = size self - 1
    /\ consistent self'
    /\ (forall j : nat, j < i ->
          dataset_examples self' !! j = dataset_examples self !! j
          /\ dataset_labels self' !! j = dataset_labels self !! j)
    /\ (forall j : nat, i <= j ->
          dataset_examples self' !! j = dataset_examples self !! S j
          /\ dataset_labels self' !! j = dataset_labels self !! S j)
    /\ (2 <= size self ->
        exists s1 s2,
          remove 0 self = Return s1
          /\ remove (Z.of_nat (size self - 2)) s1 = Return s2
          /\ dataset_examples s2
             = take (size self - 2) (drop 1 (dataset_examples self))
          /\ dataset_labels s2
             = take (size self - 2) (drop 1 (dataset_labels self))).
Proof.
  intros [Hex Hidx] Hi. eexists. split; [now apply remove_in_range|].
  unfold size in *. cbn [dataset_examples dataset_labels index_embeddings].
  split; [reflexivity|]. split; [reflexivity|].
  split; [rewrite length_delete; [lia | now apply lookup_lt_is_Some_2]|].
  split.
  { unfold consistent. cbn [dataset_examples dataset_labels index_embeddings].
    rewrite !length_delete by (apply lookup_lt_is_Some_2; lia). lia. }
  split; [intros j Hj; now rewrite !list_lookup_delete_lt by exact Hj|].
  split; [intros j Hj; now rewrite !list_lookup_delete_ge by exact Hj|].
  intros H2.
  exists (mkIndexer (delete 0 (dataset_examples self))
                    (delete 0 (dataset_labels self))
                    (delete 0 (index_embeddings self))).
  eexists. split; [apply (remove_in_range self 0); unfold size; lia|].
  split.
  - apply remove_in_range. unfold size. cbn [dataset_labels].
    rewrite length_delete by (apply lookup_lt_is_Some_2; lia). lia.
  - cbn [dataset_examples dataset_labels]. rewrite !delete_first.
    split; apply delete_last; rewrite length_drop; lia.
Qed.

End IndexerClaims.

Section IndexerExample.
Import Py Indexer.

Lemma remove_shifts_witness :
  consistent (mkIndexer ["a"; "b"; "c"; "d"] [0; 1; 0; 1]%Z [10; 11; 12; 13])
  /\ 0 < size (mkIndexer ["a"; "b"; "c"; "d"] [0; 1; 0; 1]%Z [10; 11; 12; 13])
  /\ exists self' : Indexer string nat,
      remove 0 (mkIndexer ["a"; "b"; "c"; "d"] [0; 1; 0; 1]%Z [10; 11; 12; 13])
      = Return self'
      /\ dataset_examples self' = ["b"; "c"; "d"].
Proof.
  split; [split; reflexivity|]. split; [unfold size; simpl; lia|].
  destruct (remove_shifts
              (mkIndexer ["a"; "b"; "c"; "d"] [0; 1; 0; 1]%Z [10; 11; 12; 13])
              0 (conj eq_refl eq_refl) (Nat.lt_0_succ 3))
    as (self' & Hr & Hex & _).
  exists self'. split; [exact Hr | exact Hex].
Defined.

End IndexerExample.

(** ** Further properties of the kernels *)

Section KernelGeometry.
Import Tensor Distances.
Local Open Scope R_scope.






End KernelGeometry.

(** ** Further properties of the lookup *)

Section RegistryFacts.
Import Py Distances Canonicalizer DistanceObject TableInvariant.

(** A key of [mapping] is a name or alias, and its value is the canonical
    name set when it was last written. *)
Lemma add_distance_lookup (m : gmap string string) (f : gmap string Distance)
    (d : Distance) (t : string) :
  (add_distance (m, f) d).1 !! t
  = if decide (t ∈ name d :: aliases d) then Some (name d) else m !! t.
Proof.
  simpl. rewrite add_aliases_lookup.
  destruct (decide (t ∈ aliases d)) as [Hin|Hnin].
  - now rewrite decide_True by now apply list_elem_of_further.
  - destruct (decide (t = name d)) as [->|Hne].
    + rewrite lookup_insert_eq.
      now rewrite decide_True by apply list_elem_of_here.
    + rewrite lookup_insert_ne by congruence.
      rewrite decide_False; [reflexivity|].
      intros [?|?]%elem_of_cons; contradiction.
Qed.

Lemma add_distance_snd (m : gmap string string) (f : gmap string Distance)
    (d : Distance) :
  (add_distance (m, f) d).2 = <[name d := d]> f.
Proof. reflexivity. Qed.

Lemma add_distance_ok (P : Distance -> Prop) tables (d : Distance) :
  P d -> tables_ok P tables -> tables_ok P (add_distance tables d).
Proof.
  destruct tables as [m f]. intros Hd [Hm Hf]. split.
  - intros t c. rewrite add_distance_lookup, add_distance_snd.
    rewrite lookup_insert_is_Some.
    destruct (decide (t ∈ name d :: aliases d)).
    + intros [= <-]. now left.
    + intros Hc. destruct (decide (name d = c)); [now left|].
      right. split; [assumption|]. now apply (Hm t).
  - intros c d'. rewrite add_distance_snd.
    rewrite lookup_insert_Some. intros [[<- <-]|[_ Hc]]; [tauto|].
    now apply Hf.
Qed.

Lemma build_tables_ok (P : Distance -> Prop) (ds : list Distance) tables :
  Forall P ds -> tables_ok P tables ->
  tables_ok P (foldl add_distance tables ds).
Proof.
  intros Hall. revert tables.
  induction Hall as [|d ds Hd _ IH]; intros tables Hok; [exact Hok|].
  apply IH. now apply add_distance_ok.
Qed.

End RegistryFacts.

Section RegistryClaims.
Import Py Distances Canonicalizer DistanceObject TableInvariant.

Lemma canonicalize_str (registry : list Distance) (s : string) :
  canonicalize_in registry (PyStr s)
  = match (build_tables registry).1 !! strip (lower s) with
    | Some c =>
        match (build_tables registry).2 !! c with
        | Some d => Return d
        | None => Raise (KeyError c)
        end
    | None => Raise (ValueError unsupported_msg)
    end.
Proof. unfold canonicalize_in. now destruct (build_tables registry). Qed.

(** Whatever the registry holds, looking a string up never fails with a
    [KeyError]: it returns an object of the registry when the normalised
    string is one of its names or aliases, and raises the unsupported-metric
    [ValueError] otherwise. *)
Theorem string_lookup_stays_in_registry (registry : list Distance)
    (s : string) :
  (exists d, canonicalize_in registry (PyStr s) = Return d
     /\ d ∈ registry /\ (strip (lower s) ∈ names_of registry))
  \/ (canonicalize_in registry (PyStr s) = Raise (ValueError unsupported_msg)
     /\ (strip (lower s) ∉ names_of registry)).
Proof.
  rewrite canonicalize_str.
  assert (Hok : tables_ok (fun d => d ∈ registry) (build_tables registry)).
  { apply build_tables_ok.
    - now apply Forall_forall.
    - split; intros ? ?; cbn [fst snd]; rewrite lookup_empty; discriminate. }
  pose proof (build_tables_lookup_None registry (∅, ∅) (strip (lower s)))
    as Hnone.
  fold (build_tables registry) in Hnone. destruct Hok as [Hm Hf].
  destruct ((build_tables registry).1 !! strip (lower s)) as [c|] eqn:Hc.
  - left. destruct (Hm _ _ Hc) as [d Hd]. rewrite Hd. exists d.
    split; [reflexivity|]. split; [now apply (Hf c)|].
    destruct (decide (strip (lower s) ∈ names_of registry)) as [H|H];
      [exact H|].
    assert (Hcontra : Some c = None)
      by (apply Hnone; split; [apply lookup_empty|exact H]).
    discriminate.
  - right. split; [reflexivity|]. now apply Hnone.
Qed.

Lemma mapping_untouched (ds : list Distance)
    (tables : gmap string string * gmap string Distance) (t : string) :
  t ∉ names_of ds ->
  (foldl add_distance tables ds).1 !! t = tables.1 !! t.
Proof.
  revert tables. induction ds as [|d ds IH]; intros [m f] Hnot;
    [reflexivity|].
  change (names_of (d :: ds)) with ((name d :: aliases d) ++ names_of ds)
    in Hnot.
  rewrite elem_of_app in Hnot.
  change (foldl add_distance (m, f) (d :: ds))
    with (foldl add_distance (add_distance (m, f) d) ds).
  rewrite IH by tauto. rewrite add_distance_lookup.
  rewrite decide_False by tauto. reflexivity.
Qed.

Lemma name2fn_untouched (ds : list Distance)
    (tables : gmap string string * gmap string Distance) (n : string) :
  n ∉ map name ds ->
  (foldl add_distance tables ds).2 !! n = tables.2 !! n.
Proof.
  revert tables. induction ds as [|d ds IH]; intros [m f] Hnot;
    [reflexivity|].
  cbn [map] in Hnot. rewrite elem_of_cons in Hnot.
  change (foldl add_distance (m, f) (d :: ds))
    with (foldl add_distance (add_distance (m, f) d) ds).
  rewrite IH by tauto. rewrite add_distance_snd.
  cbn [snd]. apply lookup_insert_ne. intros Heq. apply Hnot. now left.
Qed.

(** A string is resolved through the last registry entry that answers to
    it, by name or by alias, and the object returned is the last entry that
    carries that entry's name; these are one and the same entry when no
    later entry reuses its name. *)
Theorem lookup_follows_last_entries (registry l1 l2 l3 l4 : list Distance)
    (d1 d : Distance) (s : string) :
  registry = l1 ++ d1 :: l2 ->
  strip (lower s) ∈ name d1 :: aliases d1 ->
  strip (lower s) ∉ names_of l2 ->
  registry = l3 ++ d :: l4 ->
  name d = name d1 -> name d1 ∉ map name l4 ->
  canonicalize_in registry (PyStr s) = Return d.
Proof.
  intros H1 Hin Hl2 H3 Hname Hl4. rewrite canonicalize_str.
  assert (Hmap : (build_tables registry).1 !! strip (lower s)
                 = Some (name d1)).
  { rewrite H1. unfold build_tables. rewrite foldl_app.
    change (foldl add_distance (foldl add_distance (∅, ∅) l1) (d1 :: l2))
      with (foldl add_distance
              (add_distance (foldl add_distance (∅, ∅) l1) d1) l2).
    rewrite mapping_untouched by exact Hl2.
    destruct (foldl add_distance (∅, ∅) l1) as [m f].
    rewrite add_distance_lookup. now rewrite decide_True by exact Hin. }
  assert (Hfn : (build_tables registry).2 !! name d1 = Some d).
  { rewrite H3. unfold build_tables. rewrite foldl_app.
    change (foldl add_distance (foldl add_distance (∅, ∅) l3) (d :: l4))
      with (foldl add_distance
              (add_distance (foldl add_distance (∅, ∅) l3) d) l4).
    rewrite name2fn_untouched by exact Hl4.
    destruct (foldl add_distance (∅, ∅) l3) as [m f].
    rewrite add_distance_snd, <- Hname. apply lookup_insert_eq. }
  now rewrite Hmap, Hfn.
Qed.

Lemma lookup_follows_last_entries_witness :
  canonicalize_in
    [mkDistance 7 "x" ["s"] ManhattanDistance;
     mkDistance 8 "z" ["s"] CosineDistance;
     mkDistance 9 "z" [] EuclideanDistance] (PyStr " S ")
  = Return (mkDistance 9 "z" [] EuclideanDistance).
Proof.
  apply (lookup_follows_last_entries _
           [mkDistance 7 "x" ["s"] ManhattanDistance]
           [mkDistance 9 "z" [] EuclideanDistance]
           [mkDistance 7 "x" ["s"] ManhattanDistance;
            mkDistance 8 "z" ["s"] CosineDistance]
           []
           (mkDistance 8 "z" ["s"] CosineDistance)
           (mkDistance 9 "z" [] EuclideanDistance) " S ").
  - reflexivity.
  - change (strip (lower " S ")) with "s". cbn [name aliases].
    apply list_elem_of_further, list_elem_of_here.
  - change (strip (lower " S ")) with "s".
    change (names_of [mkDistance 9 "z" [] EuclideanDistance]) with ["z"].
    intros H. apply elem_of_cons in H as [H|H]; [discriminate H|].
    now apply elem_of_nil in H.
  - reflexivity.
  - reflexivity.
  - simpl. apply not_elem_of_nil.
Defined.

(** Each registered object is found again under its own [str] and under
    each of its aliases: no name of the registry is shadowed by another
    entry. *)
Theorem registered_names_round_trip (d : Distance) (n : string) :
  d ∈ DISTANCES -> n ∈ str d :: aliases d ->
  distance_canonicalizer (PyStr n) = Return d.
Proof.
  unfold DISTANCES. intros Hd Hn.
  repeat (apply elem_of_cons in Hd as [->|Hd];
    [unfold str in Hn; simpl in Hn;
     repeat (apply elem_of_cons in Hn as [->|Hn];
             [vm_compute; reflexivity|]);
     now apply elem_of_nil in Hn|]).
  now apply elem_of_nil in Hd.
Qed.

Lemma registered_names_round_trip_witness :
  manhattan_obj ∈ DISTANCES
  /\ ("taxicab" ∈ str manhattan_obj :: aliases manhattan_obj)
  /\ distance_canonicalizer (PyStr "taxicab") = Return manhattan_obj.
Proof.
  split; [unfold DISTANCES; set_solver|].
  split; [unfold str; simpl; set_solver|].
  apply (registered_names_round_trip manhattan_obj "taxicab").
  - unfold DISTANCES. set_solver.
  - unfold str. simpl. set_solver.
Defined.

End RegistryClaims.

Section Normalisation.
Import Py Distances Canonicalizer TableInvariant.

Lemma lower_ascii_idem (c : Ascii.ascii) :
  lower_ascii (lower_ascii c) = lower_ascii c.
Proof.
  destruct c as [[] [] [] [] [] [] [] []]; reflexivity.
Qed.

Lemma is_space_lower (c : Ascii.ascii) : is_space (lower_ascii c) = is_space c.
Proof.
  destruct c as [[] [] [] [] [] [] [] []]; reflexivity.
Qed.

Lemma lower_idem (s : string) : lower (lower s) = lower s.
Proof.
  induction s as [|c s IH]; simpl; [reflexivity|].
  now rewrite lower_ascii_idem, IH.
Qed.

Lemma lower_lstrip (s : string) : lower (lstrip s) = lstrip (lower s).
Proof.
  induction s as [|c s IH]; simpl; [reflexivity|].
  rewrite is_space_lower. now destruct (is_space c).
Qed.

Lemma lower_rstrip (s : string) : lower (rstrip s) = rstrip (lower s).
Proof.
  induction s as [|c s IH]; simpl; [reflexivity|].
  rewrite <- IH, is_space_lower.
  destruct (rstrip s) as [|a r]; simpl; [now destruct (is_space c)|].
  reflexivity.
Qed.

Lemma lstrip_head_ok (s : string) : head_ok (lstrip s).
Proof.
  induction s as [|c s IH]; simpl; [exact I|].
  destruct (is_space c) eqn:E; [exact IH|exact E].
Qed.

Lemma head_ok_lstrip (s : string) : head_ok s -> lstrip s = s.
Proof. destruct s as [|c s]; simpl; [reflexivity|]. now intros ->. Qed.

Lemma rstrip_head_ok (s : string) : head_ok s -> head_ok (rstrip s).
Proof.
  destruct s as [|c s]; simpl; [trivial|]. intros Hc.
  destruct (rstrip s); [rewrite Hc|]; exact Hc.
Qed.

Lemma rstrip_idem (s : string) : rstrip (rstrip s) = rstrip s.
Proof.
  induction s as [|c s IH]; simpl; [reflexivity|].
  destruct (rstrip s) as [|a r] eqn:E.
  - destruct (is_space c) eqn:Ec; simpl; [reflexivity|now rewrite Ec].
  - change (rstrip (String c (String a r)))
      with (match rstrip (String a r) with
            | EmptyString =>
                if is_space c then EmptyString else String c EmptyString
            | String x y => String c (String x y)
            end).
    now rewrite IH.
Qed.

Lemma strip_idem (s : string) : strip (strip s) = strip s.
Proof.
  unfold strip.
  rewrite (head_ok_lstrip (rstrip (lstrip s)))
    by apply rstrip_head_ok, lstrip_head_ok.
  apply rstrip_idem.
Qed.

Lemma normalise_idem (s : string) :
  strip (lower (strip (lower s))) = strip (lower s).
Proof.
  unfold strip at 2. rewrite lower_rstrip, lower_lstrip, lower_idem.
  apply strip_idem.
Qed.

Lemma normalise_strip (s : string) :
  strip (lower (strip s)) = strip (lower s).
Proof.
  replace (lower (strip s)) with (strip (lower s))
    by (unfold strip; now rewrite lower_rstrip, lower_lstrip).
  apply strip_idem.
Qed.

(** The lookup sees a string only through its lower-cased, trimmed form:
    that form resolves to what the string resolves to, in every registry, so
    letter case and surrounding white space never change the outcome. *)
Theorem lookup_of_normalised_string (registry : list Distance) (s : string) :
  canonicalize_in registry (PyStr (strip (lower s)))
  = canonicalize_in registry (PyStr s)
  /\ canonicalize_in registry (PyStr (lower s))
     = canonicalize_in registry (PyStr s)
  /\ canonicalize_in registry (PyStr (strip s))
     = canonicalize_in registry (PyStr s).
Proof.
  rewrite !canonicalize_str.
  now rewrite normalise_idem, lower_idem, normalise_strip.
Qed.

End Normalisation.

(** ** Further properties of Recall@K *)

Section RecallBounds.
Import Py Recall.
Local Open Scope R_scope.

Lemma filter_all_iff {A} (P : A -> Prop) `{forall x, Decision (P x)}
    (l : list A) :
  length (filter P l) = length l <-> Forall P l.
Proof.
  induction l as [|x l IH]; [split; [constructor|reflexivity]|].
  rewrite filter_cons. pose proof (length_filter P l) as Hle.
  destruct (decide (P x)) as [Hx|Hx]; simpl.
  - rewrite Forall_cons. split.
    + intros Hlen. split; [exact Hx|]. apply IH. lia.
    + intros [_ Hall]. f_equal. now apply IH.
  - split; [lia|]. intros Hall. apply Forall_cons in Hall as [Hx' _].
    contradiction.
Qed.

Lemma filter_none_iff {A} (P : A -> Prop) `{forall x, Decision (P x)}
    (l : list A) :
  length (filter P l) = 0%nat <-> Forall (fun x => ~ P x) l.
Proof.
  induction l as [|x l IH]; [split; [constructor|reflexivity]|].
  rewrite filter_cons.
  destruct (decide (P x)) as [Hx|Hx]; simpl.
  - split; [discriminate|]. intros Hall.
    apply Forall_cons in Hall as [Hx' _]. contradiction.
  - rewrite Forall_cons. rewrite IH. tauto.
Qed.

Lemma div_mul_pos (a c : R) : 0 < c -> a / c * c = a.
Proof. intros Hc. field. now apply Rgt_not_eq. Qed.

Lemma hit_rate_bounds (k : Z) (rows : list (list bool)) :
  rows <> [] -> 0 <= hit_rate k rows <= 1.
Proof.
  intros Hne. unfold hit_rate.
  pose proof (length_filter (fun row => hit k row = true) rows) as Hle.
  apply le_INR in Hle.
  pose proof (pos_INR (length (filter (fun row => hit k row = true) rows)))
    as Hpos.
  assert (Hn : 0 < INR (length rows)).
  { apply lt_0_INR. destruct rows; [contradiction|simpl; lia]. }
  split.
  - apply Rmult_le_pos; [exact Hpos|]. left. now apply Rinv_0_lt_compat.
  - apply (Rmult_le_reg_r (INR (length rows))); [exact Hn|].
    rewrite div_mul_pos by exact Hn. rewrite Rmult_1_l. exact Hle.
Qed.

Lemma hit_rate_one_iff (k : Z) (rows : list (list bool)) :
  rows <> [] ->
  hit_rate k rows = 1 <-> Forall (fun row => hit k row = true) rows.
Proof.
  intros Hne. rewrite <- filter_all_iff. unfold hit_rate.
  assert (Hn : 0 < INR (length rows)).
  { apply lt_0_INR. destruct rows; [contradiction|simpl; lia]. }
  split.
  - intros Hr. apply INR_eq.
    apply (Rmult_eq_compat_r (INR (length rows))) in Hr.
    rewrite div_mul_pos in Hr by exact Hn.
    rewrite Rmult_1_l in Hr. exact Hr.
  - intros ->. apply Rinv_r. now apply Rgt_not_eq.
Qed.

Lemma hit_rate_zero_iff (k : Z) (rows : list (list bool)) :
  rows <> [] ->
  hit_rate k rows = 0 <-> Forall (fun row => hit k row = false) rows.
Proof.
  intros Hne.
  assert (Hn : 0 < INR (length rows)).
  { apply lt_0_INR. destruct rows; [contradiction|simpl; lia]. }
  transitivity (length (filter (fun row => hit k row = true) rows) = 0%nat).
  - unfold hit_rate. split.
    + intros Hr. apply INR_eq.
      apply (Rmult_eq_compat_r (INR (length rows))) in Hr.
      rewrite div_mul_pos in Hr by exact Hn.
      rewrite Rmult_0_l in Hr. exact Hr.
    + intros ->. simpl. lra.
  - rewrite filter_none_iff. apply Forall_iff. intros row.
    destruct (hit k row); split; congruence.
Qed.

(** With average "micro" the result is a number between 0 and 1; it is 1
    exactly when every query has a match among its first k neighbours and 0
    exactly when none has. *)
Theorem recall_micro_range (self : RecallAtK) (query_labels : list Z)
    (match_mask : list (list bool)) :
  average self = "micro" -> (0 <= k self)%Z -> match_mask <> [] ->
  exists r : R,
    compute self query_labels match_mask = Return (Num r)
    /\ 0 <= r <= 1
    /\ (r = 1 <-> Forall (fun row => hit (k self) row = true) match_mask)
    /\ (r = 0 <-> Forall (fun row => hit (k self) row = false) match_mask).
Proof.
  intros Havg Hk Hne. exists (hit_rate (k self) match_mask).
  split; [now apply compute_micro|].
  split; [now apply hit_rate_bounds|].
  split; [now apply hit_rate_one_iff|now apply hit_rate_zero_iff].
Qed.

Lemma recall_micro_range_witness :
  average (mkRecallAtK 2 "micro") = "micro"
  /\ (0 <= k (mkRecallAtK 2 "micro"))%Z
  /\ [[false; true; false]; [false; false; true]] <> []
  /\ exists r : R,
      compute (mkRecallAtK 2 "micro") [5; 6]%Z
        [[false; true; false]; [false; false; true]] = Return (Num r)
      /\ 0 <= r <= 1.
Proof.
  split; [reflexivity|]. split; [simpl; lia|]. split; [discriminate|].
  destruct (recall_micro_range (mkRecallAtK 2 "micro") [5; 6]%Z
              [[false; true; false]; [false; false; true]] eq_refl
              ltac:(simpl; lia) ltac:(discriminate))
    as (r & Hr & Hb & _).
  exists r. split; [exact Hr|exact Hb].
Defined.

End RecallBounds.

Section RecallOrder.
Import Py Recall.
Local Open Scope R_scope.

Lemma reduce_sum_map_le {A} (f g : A -> R) (l : list A) :
  Forall (fun x => f x <= g x) l ->
  Tensor.reduce_sum (map f l) <= Tensor.reduce_sum (map g l).
Proof.
  unfold Tensor.reduce_sum.
  induction 1 as [|x l Hx _ IH]; simpl; lra.
Qed.

Lemma reduce_sum_map_const {A} (c : R) (l : list A) :
  Tensor.reduce_sum (map (fun _ => c) l) = c * INR (length l).
Proof.
  unfold Tensor.reduce_sum. induction l as [|x l IH]; [simpl; lra|].
  change (length (x :: l)) with (S (length l)). rewrite S_INR.
  simpl. rewrite IH. lra.
Qed.

Lemma filter_length_mono {A} (P Q : A -> Prop) `{forall x, Decision (P x)}
    `{forall x, Decision (Q x)} (l : list A) :
  (forall x, P x -> Q x) ->
  (length (filter P l) <= length (filter Q l))%nat.
Proof.
  intros Himp. induction l as [|x l IH]; [reflexivity|].
  rewrite !filter_cons. pose proof (Himp x) as Hx.
  destruct (decide (P x)), (decide (Q x)); simpl; try lia. tauto.
Qed.

(** A hit within the first [k1] neighbours is a hit within the first [k2]
    when [k1 <= k2]. *)
Lemma hit_mono (k1 k2 : Z) (row : list bool) :
  (k1 <= k2)%Z -> hit k1 row = true -> hit k2 row = true.
Proof.
  intros Hk. rewrite !hit_iff. intros (j & Hj & Hrow).
  exists j. split; [lia|exact Hrow].
Qed.

Lemma hit_rate_mono (k1 k2 : Z) (rows : list (list bool)) :
  (k1 <= k2)%Z -> hit_rate k1 rows <= hit_rate k2 rows.
Proof.
  intros Hk. unfold hit_rate.
  pose proof (filter_length_mono (fun row => hit k1 row = true)
                (fun row => hit k2 row = true) rows
                (fun row => hit_mono k1 k2 row Hk)) as Hle.
  apply le_INR in Hle.
  destruct rows as [|row rows]; [apply Rle_refl|].
  apply Rmult_le_compat_r; [|exact Hle].
  left. apply Rinv_0_lt_compat, lt_0_INR. simpl. lia.
Qed.

Lemma unique_nonempty (labels : list Z) :
  labels <> [] -> (0 < length (unique labels))%nat.
Proof.
  intros Hne. destruct labels as [|x r]; [contradiction|].
  destruct (unique_spec (x :: r)) as [_ Hmem].
  destruct (unique (x :: r)) as [|c cl]; [|simpl; lia].
  exfalso. apply (not_elem_of_nil x), Hmem, list_elem_of_here.
Qed.

(** With average "macro" the result is a number between 0 and 1. *)
Theorem recall_macro_range (self : RecallAtK) (query_labels : list Z)
    (match_mask : list (list bool)) :
  average self = "macro" -> (0 <= k self)%Z ->
  length query_labels = length match_mask -> query_labels <> [] ->
  exists r : R,
    compute self query_labels match_mask = Return (Num r) /\ 0 <= r <= 1.
Proof.
  intros Havg Hk Hlen Hne. eexists.
  split; [now apply compute_macro|].
  destruct (unique_spec query_labels) as [_ Hmem].
  pose proof (unique_nonempty query_labels Hne) as Hpos.
  apply lt_INR in Hpos. simpl in Hpos.
  assert (Hall : Forall (fun c =>
            0 <= hit_rate (k self) (class_rows c query_labels match_mask)
            /\ hit_rate (k self) (class_rows c query_labels match_mask) <= 1)
            (unique query_labels)).
  { apply Forall_forall. intros c Hc. apply hit_rate_bounds.
    apply class_rows_nonempty; [exact Hlen|now apply Hmem]. }
  pose proof (reduce_sum_map_le (fun _ => 0)
                (fun c => hit_rate (k self)
                            (class_rows c query_labels match_mask))
                (unique query_labels)) as Hlo.
  pose proof (reduce_sum_map_le
                (fun c => hit_rate (k self)
                            (class_rows c query_labels match_mask))
                (fun _ => 1) (unique query_labels)) as Hhi.
  rewrite reduce_sum_map_const in Hlo, Hhi.
  specialize (Hlo ltac:(eapply Forall_impl; [exact Hall|]; simpl; tauto)).
  specialize (Hhi ltac:(eapply Forall_impl; [exact Hall|]; simpl; tauto)).
  split.
  - apply Rmult_le_pos; [lra|]. left. now apply Rinv_0_lt_compat.
  - apply (Rmult_le_reg_r (INR (length (unique query_labels))));
      [exact Hpos|].
    rewrite div_mul_pos by exact Hpos. lra.
Qed.

Lemma recall_macro_range_witness :
  average (mkRecallAtK 1 "macro") = "macro"
  /\ (0 <= k (mkRecallAtK 1 "macro"))%Z
  /\ length [2; 2; 8]%Z = length [[true]; [false]; [false]]
  /\ [2; 2; 8]%Z <> []
  /\ exists r : R,
      compute (mkRecallAtK 1 "macro") [2; 2; 8]%Z [[true]; [false]; [false]]
      = Return (Num r) /\ 0 <= r <= 1.
Proof.
  split; [reflexivity|]. split; [simpl; lia|]. split; [reflexivity|].
  split; [discriminate|].
  apply (recall_macro_range (mkRecallAtK 1 "macro") [2; 2; 8]%Z
           [[true]; [false]; [false]]);
    [reflexivity | simpl; lia | reflexivity | discriminate].
Defined.

End RecallOrder.

Section RecallEdges.
Import Py Recall.
Local Open Scope R_scope.

Lemma mask_nonempty (labels : list Z) (mask : list (list bool)) :
  length labels = length mask -> labels <> [] -> mask <> [].
Proof. intros Hlen Hne ->. destruct labels; [contradiction|discriminate]. Qed.

(** Looking at more neighbours never lowers the recall: for
    [0 <= k1 <= k2] the result with [k1] is at most the result with [k2],
    under either average. *)
Theorem recall_monotone_in_k (k1 k2 : Z) (avg : string)
    (query_labels : list Z) (match_mask : list (list bool)) :
  (0 <= k1 <= k2)%Z -> avg = "micro" \/ avg = "macro" ->
  length query_labels = length match_mask -> query_labels <> [] ->
  exists r1 r2 : R,
    compute (mkRecallAtK k1 avg) query_labels match_mask = Return (Num r1)
    /\ compute (mkRecallAtK k2 avg) query_labels match_mask = Return (Num r2)
    /\ r1 <= r2.
Proof.
  intros [Hk1 Hk12] [->| ->] Hlen Hne.
  - pose proof (mask_nonempty _ _ Hlen Hne) as Hmask.
    exists (hit_rate k1 match_mask), (hit_rate k2 match_mask).
    split; [apply compute_micro; simpl; [reflexivity|lia|exact Hmask]|].
    split; [apply compute_micro; simpl; [reflexivity|lia|exact Hmask]|].
    now apply hit_rate_mono.
  - do 2 eexists.
    split; [apply compute_macro; simpl; [reflexivity|lia|exact Hlen|exact Hne]|].
    split; [apply compute_macro; simpl; [reflexivity|lia|exact Hlen|exact Hne]|].
    cbn [k]. apply Rmult_le_compat_r.
    + left. apply Rinv_0_lt_compat.
      pose proof (unique_nonempty query_labels Hne) as Hpos.
      apply lt_INR in Hpos. exact Hpos.
    + apply reduce_sum_map_le, Forall_forall. intros c _.
      now apply hit_rate_mono.
Qed.

Lemma recall_monotone_in_k_witness :
  (0 <= 1 <= 2)%Z
  /\ length [0; 1]%Z = length [[false; true]; [true; false]]
  /\ exists r1 r2 : R,
      compute (mkRecallAtK 1 "macro") [0; 1]%Z [[false; true]; [true; false]]
      = Return (Num r1)
      /\ compute (mkRecallAtK 2 "macro") [0; 1]%Z
           [[false; true]; [true; false]]
         = Return (Num r2)
      /\ r1 <= r2.
Proof.
  split; [lia|]. split; [reflexivity|].
  apply (recall_monotone_in_k 1 2 "macro" [0; 1]%Z
           [[false; true]; [true; false]]);
    [lia | now right | reflexivity | discriminate].
Defined.

Lemma unique_const (c : Z) (labels : list Z) :
  Forall (fun x => x = c) labels -> labels <> [] -> unique labels = [c].
Proof.
  intros Hall Hne. destruct Hall as [|x r -> Hr]; [contradiction|].
  unfold unique. cbn [foldl].
  rewrite decide_False by apply not_elem_of_nil. cbn [app]. clear Hne.
  induction Hr as [|y r -> _ IH]; [reflexivity|].
  cbn [foldl]. rewrite decide_True by apply list_elem_of_here. exact IH.
Qed.

Lemma class_rows_all (c : Z) (labels : list Z) (mask : list (list bool)) :
  Forall (fun x => x = c) labels -> length labels = length mask ->
  class_rows c labels mask = mask.
Proof.
  unfold class_rows. intros Hall. revert mask.
  induction Hall as [|x r -> _ IH]; intros [|row mask] Hlen;
    try discriminate Hlen; [reflexivity|].
  injection Hlen as Hlen. cbn [zip_with]. rewrite filter_cons. cbn [fst].
  rewrite decide_True by reflexivity.
  cbn [fmap list_fmap snd]. f_equal. now apply IH.
Qed.

(** When every query carries the same label the macro average is the micro
    average. *)
Theorem macro_of_one_class (self : RecallAtK) (c : Z) (query_labels : list Z)
    (match_mask : list (list bool)) :
  average self = "macro" -> (0 <= k self)%Z ->
  length query_labels = length match_mask -> query_labels <> [] ->
  Forall (fun x => x = c) query_labels ->
  compute self query_labels match_mask
  = compute (mkRecallAtK (k self) "micro") query_labels match_mask.
Proof.
  intros Havg Hk Hlen Hne Hall.
  rewrite compute_macro by assumption.
  rewrite compute_micro;
    [|reflexivity|exact Hk|now apply (mask_nonempty query_labels)].
  rewrite (unique_const c) by assumption.
  cbn [map length k]. rewrite class_rows_all by assumption.
  do 2 f_equal. unfold Tensor.reduce_sum. simpl. lra.
Qed.

Lemma macro_of_one_class_witness :
  compute (mkRecallAtK 1 "macro") [3; 3]%Z [[true]; [false]]
  = compute (mkRecallAtK 1 "micro") [3; 3]%Z [[true]; [false]].
Proof.
  apply (macro_of_one_class (mkRecallAtK 1 "macro") 3 [3; 3]%Z
           [[true]; [false]]);
    [reflexivity | simpl; lia | reflexivity | discriminate
    | repeat constructor].
Defined.

Lemma hit_rate_zero_k (rows : list (list bool)) : hit_rate 0 rows = 0.
Proof.
  unfold hit_rate.
  replace (length (filter (fun row => hit 0 row = true) rows)) with 0%nat.
  - simpl. lra.
  - symmetry. apply filter_none_iff, Forall_forall. intros row _.
    unfold hit. simpl. discriminate.
Qed.

(** With [k = 0] no neighbour is looked at and the recall is 0 under either
    average. *)
Theorem recall_at_zero (avg : string) (query_labels : list Z)
    (match_mask : list (list bool)) :
  avg = "micro" \/ avg = "macro" ->
  length query_labels = length match_mask -> query_labels <> [] ->
  compute (mkRecallAtK 0 avg) query_labels match_mask = Return (Num 0).
Proof.
  intros [->| ->] Hlen Hne.
  - rewrite compute_micro;
      [|reflexivity|simpl; lia|now apply (mask_nonempty query_labels)].
    cbn [k]. now rewrite hit_rate_zero_k.
  - rewrite compute_macro; [|reflexivity|simpl; lia|exact Hlen|exact Hne].
    cbn [k]. do 2 f_equal.
    rewrite (map_ext _ (fun _ => 0)) by (intros c; apply hit_rate_zero_k).
    rewrite reduce_sum_map_const. lra.
Qed.

Lemma recall_at_zero_witness :
  compute (mkRecallAtK 0 "macro") [1; 2]%Z [[true]; [true]] = Return (Num 0).
Proof.
  apply (recall_at_zero "macro" [1; 2]%Z [[true]; [true]]);
    [now right | reflexivity | discriminate].
Defined.

(** Without any query the result is NaN, under either average: the micro
    mean of no indicator, and the macro quotient of 0 by 0 classes. *)
Theorem recall_without_queries (self : RecallAtK) (query_labels : list Z)
    (match_mask : list (list bool)) :
  (average self = "micro" /\ match_mask = [])
  \/ (average self = "macro" /\ query_labels = []) ->
  compute self query_labels match_mask = Return NaN.
Proof.
  unfold compute. intros [[Havg ->]|[Havg ->]].
  - now rewrite decide_True by exact Havg.
  - rewrite decide_False by (rewrite Havg; discriminate).
    now rewrite decide_True by exact Havg.
Qed.

Lemma recall_without_queries_witness :
  compute (mkRecallAtK 1 "macro") [] [] = Return NaN.
Proof.
  apply (recall_without_queries (mkRecallAtK 1 "macro") [] []).
  right. split; reflexivity.
Defined.

End RecallEdges.

(** ** The ordering check of the indexer tests *)

Section SortedCheck.
Import IndexerTests.
Local Open Scope R_scope.

Lemma Rgtb_false_iff (x y : R) : Rgtb x y = false <-> x <= y.
Proof.
  unfold Rgtb. destruct (Rlt_dec y x); split; intros H;
    try discriminate; try reflexivity; lra.
Qed.

Lemma check_list_spec (neighbor_list : list R) (flag : bool) :
  check_list neighbor_list flag = true
  <-> flag = true /\ Sorted Rle neighbor_list.
Proof.
  revert flag.
  induction neighbor_list as [|x l IH]; intros flag.
  - simpl. split; [intros H; split; [exact H|constructor]|tauto].
  - destruct l as [|y rest].
    + simpl. split; [|tauto]. intros H. split; [exact H|].
      repeat constructor.
    + change (check_list (x :: y :: rest) flag)
        with (check_list (y :: rest) (if Rgtb x y then false else flag)).
      rewrite IH. split.
      * intros [Hflag Hs]. destruct (Rgtb x y) eqn:E; [discriminate|].
        split; [exact Hflag|]. constructor; [exact Hs|].
        constructor. now apply Rgtb_false_iff.
      * intros [Hflag Hs].
        apply Sorted_inv in Hs as [Hs Hhd]. apply HdRel_inv in Hhd.
        apply Rgtb_false_iff in Hhd. rewrite Hhd. tauto.
Qed.

Lemma check_all_spec (neighbors : list (list R)) (flag : bool) :
  foldl (fun flag neighbor_list => check_list neighbor_list flag)
    flag neighbors = true
  <-> flag = true /\ Forall (Sorted Rle) neighbors.
Proof.
  revert flag. induction neighbors as [|l ls IH]; intros flag.
  - simpl. split; [intros H; split; [exact H|constructor]|tauto].
  - cbn [foldl]. rewrite IH, check_list_spec, Forall_cons. tauto.
Qed.

(** The flag computed by the two loops of [test_multiple_examples_find] is
    true exactly when every neighbour list is in non-decreasing order of
    distance. *)
Theorem neighbors_sorted_iff (neighbors : list (list R)) :
  neighbors_sorted neighbors = true <-> Forall (Sorted Rle) neighbors.
Proof.
  unfold neighbors_sorted. rewrite check_all_spec. tauto.
Qed.

End SortedCheck.

(** ** Shape and meaning of the distance matrices *)

Section KernelMeaning.
Import Tensor Distances.
Local Open Scope R_scope.

(** For a batch of N vectors each of the four distance kernels returns N
    rows of N entries. *)
Theorem distance_kernels_shape (e : tensor2) :
  Forall (fun d : Distance =>
            length (call d e) = length e
            /\ Forall (fun row => length row = length e) (call d e))
    [cosine_obj; euclidean_obj; squared_euclidean_obj; manhattan_obj].
Proof.
  apply Forall_forall. intros d Hd. apply pairwise_kernels_square.
  now apply list_elem_of_In.
Qed.

(** On vectors of one dimension the broadcast pipelines compute the textbook
    quantities: the squared Euclidean kernel gives the sum of squared
    differences, the Manhattan kernel the sum of absolute differences, and
    the Euclidean kernel the square root of the former once it reaches
    1e-18. *)
Theorem kernel_entries_are_distances (e : tensor2) (i j : nat)
    (ei ej : tensor1) :
  e !! i = Some ei -> e !! j = Some ej -> length ei = length ej ->
  entry (call squared_euclidean_obj e) i j = Some (l2_squared ei ej)
  /\ entry (call manhattan_obj e) i j = Some (l1_distance ei ej)
  /\ (1e-18 <= l2_squared ei ej ->
      entry (call euclidean_obj e) i j = Some (sqrt (l2_squared ei ej))).
Proof.
  intros Hi Hj Hlen.
  split; [now apply squared_euclidean_entry|].
  split; [now apply manhattan_entry|].
  intros Hge. unfold call; simpl. rewrite euclidean_pairwise.
  rewrite (entry_pairwise _ e i j ei ej Hi Hj). f_equal.
  rewrite expansion_l2_squared by exact Hlen.
  now apply masked_sqrt_ge.
Qed.

Lemma kernel_entries_are_distances_witness :
  ([[1; 2]; [4; 6]] : tensor2) !! 0%nat = Some [1; 2]
  /\ ([[1; 2]; [4; 6]] : tensor2) !! 1%nat = Some [4; 6]
  /\ length [1; 2] = length [4; 6]
  /\ entry (call manhattan_obj [[1; 2]; [4; 6]]) 0 1
     = Some (l1_distance [1; 2] [4; 6]).
Proof.
  split; [reflexivity|]. split; [reflexivity|]. split; [reflexivity|].
  apply (kernel_entries_are_distances [[1; 2]; [4; 6]] 0 1 [1; 2] [4; 6]);
    reflexivity.
Defined.



End KernelMeaning.

Section RecallShapes.
Import Py Recall.
Local Open Scope R_scope.

Lemma gather_where_le (c : Z) (labels : list Z) (ind pre : list R) :
  (length labels <= length ind)%nat ->
  gather (pre ++ ind) (where_from (length pre) labels c)
  = Some ((filter (fun p => p.1 = c) (zip labels ind)).*2).
Proof.
  revert ind pre.
  induction labels as [|x r IH]; intros ind pre Hlen; [reflexivity|].
  destruct ind as [|a ind]; [simpl in Hlen; lia|].
  assert (Hlen' : (length r <= length ind)%nat) by (simpl in Hlen; lia).
  specialize (IH ind (pre ++ [a]) Hlen').
  rewrite length_app, <- app_assoc in IH. cbn [length app] in IH.
  replace (length pre + 1)%nat with (S (length pre)) in IH by lia.
  cbn [where_from zip_with]. rewrite filter_cons. cbn [fst].
  destruct (decide (x = c)) as [Heq|Hne].
  - unfold gather in *. cbn [mapM].
    rewrite list_lookup_middle by reflexivity. cbn [mbind option_bind].
    rewrite IH. reflexivity.
  - exact IH.
Qed.

Lemma macro_loop_ext (labels : list Z) (ind1 ind2 : list R)
    (class_labels : list Z) (acc : float) :
  (forall c, gather ind1 (where_eq labels c) = gather ind2 (where_eq labels c))
  -> macro_loop labels ind1 class_labels acc
     = macro_loop labels ind2 class_labels acc.
Proof.
  intros Hg. revert acc.
  induction class_labels as [|c cl IH]; intros acc; [reflexivity|].
  cbn [macro_loop]. rewrite Hg.
  destruct (gather ind2 (where_eq labels c)); [apply IH|reflexivity].
Qed.

(** With average "macro" only the rows that have a label are read: mask
    rows beyond the last label do not change the result. *)
Theorem macro_ignores_unlabelled_rows (self : RecallAtK)
    (query_labels : list Z) (match_mask : list (list bool)) :
  average self = "macro" ->
  (length query_labels <= length match_mask)%nat ->
  compute self query_labels match_mask
  = compute self query_labels (take (length query_labels) match_mask).
Proof.
  intros Havg Hlen. unfold compute.
  destruct (decide (average self = "micro")) as [E|_];
    [rewrite Havg in E; discriminate E|].
  destruct (decide (average self = "macro")) as [_|E]; [|contradiction].
  rewrite (macro_loop_ext query_labels
             (map Tensor.cast_float
                (map reduce_any (map (slice_to (k self)) match_mask)))
             (map Tensor.cast_float
                (map reduce_any
                   (map (slice_to (k self))
                      (take (length query_labels) match_mask)))));
    [reflexivity|].
  intros c. unfold where_eq. rewrite !map_map.
  pose proof (gather_where_le c query_labels
    (map (fun x => Tensor.cast_float (reduce_any (slice_to (k self) x)))
       match_mask) []) as H1.
  pose proof (gather_where_le c query_labels
    (map (fun x => Tensor.cast_float (reduce_any (slice_to (k self) x)))
       (take (length query_labels) match_mask)) []) as H2.
  cbn [app length] in H1, H2.
  rewrite H1 by (rewrite length_map; exact Hlen).
  rewrite H2 by (rewrite length_map, length_take; lia).
  do 3 f_equal.
  change (map (fun x => Tensor.cast_float (reduce_any (slice_to (k self) x))))
    with (fmap (M := list)
            (fun x => Tensor.cast_float (reduce_any (slice_to (k self) x)))).
  rewrite fmap_take. unfold zip.
  symmetry. apply zip_with_take_r.
Qed.

Lemma macro_ignores_unlabelled_rows_witness :
  average (mkRecallAtK 1 "macro") = "macro"
  /\ (length [4; 5]%Z <= length [[true]; [false]; [true]])%nat
  /\ compute (mkRecallAtK 1 "macro") [4; 5]%Z [[true]; [false]; [true]]
     = compute (mkRecallAtK 1 "macro") [4; 5]%Z
         (take (length [4; 5]%Z) [[true]; [false]; [true]]).
Proof.
  split; [reflexivity|]. split; [simpl; lia|].
  apply (macro_ignores_unlabelled_rows (mkRecallAtK 1 "macro") [4; 5]%Z
           [[true]; [false]; [true]]); [reflexivity|simpl; lia].
Defined.

End RecallShapes.

(** ** The kernels in binary32 *)

Section BroadcastAnyScalar.
Import Tensor.
Context {S X Y : Type}.

Lemma bcast_col_mat (f : S -> S -> S) (g : X -> S) (h : X -> Y -> S)
    (l : list X) (l' : list Y) :
  bcast (bcast f) (map (fun x => [g x]) l) (map (fun x => map (h x) l') l)
  = map (fun x => map (fun y => f (g x) (h x y)) l') l.
Proof.
  rewrite bcast_same_length by now rewrite !length_map.
  rewrite zip_with_map_same. apply map_ext; intros x.
  rewrite bcast_singleton_l. now rewrite map_map.
Qed.

Lemma bcast_mat_row (f : S -> S -> S) (h : X -> Y -> S) (g : Y -> S)
    (l : list X) (l' : list Y) :
  bcast (bcast f) (map (fun x => map (h x) l') l) [map g l']
  = map (fun x => map (fun y => f (h x y) (g y)) l') l.
Proof.
  rewrite bcast_singleton_r, map_map. apply map_ext; intros x.
  rewrite bcast_same_length by now rewrite !length_map.
  apply zip_with_map_same.
Qed.

Lemma bcast_mat_mat (f : S -> S -> S) (h h' : X -> Y -> S)
    (l : list X) (l' : list Y) :
  bcast (bcast f) (map (fun x => map (h x) l') l)
    (map (fun x => map (h' x) l') l)
  = map (fun x => map (fun y => f (h x y) (h' x y)) l') l.
Proof.
  rewrite bcast_same_length by now rewrite !length_map.
  rewrite zip_with_map_same. apply map_ext; intros x.
  rewrite bcast_same_length by now rewrite !length_map.
  apply zip_with_map_same.
Qed.

End BroadcastAnyScalar.

Section Float32Pairwise.
Import Tensor Float32.

Lemma f32_transpose_column {X} (g : X -> float32) (l : list X) :
  Float32.transpose 1 (map (fun x => [g x]) l) = [map g l].
Proof. unfold Float32.transpose; simpl. now rewrite map_map. Qed.

Lemma f32_expansion_pairwise (e : ftensor2) :
  expansion_matrix e
  = map (fun ei => map (fun ej => Float32.expansion ei ej) e) e.
Proof.
  unfold expansion_matrix, Float32.reduce_sum_axis1_keepdims, Float32.square,
    Float32.scalar_mul, Float32.matmul_transpose_b, Float32.bcast2.
  rewrite !map_map.
  replace (map (fun x => map (mul two)
             (map (fun c => Float32.dot x c) e)) e)
    with (map (fun x => map (fun c => mul two (Float32.dot x c)) e) e)
    by (apply map_ext; intros x; now rewrite map_map).
  rewrite (bcast_col_mat sub
             (fun x => Float32.reduce_sum (map (fun y => mul y y) x))
             (fun x c => mul two (Float32.dot x c))).
  rewrite (f32_transpose_column
             (fun x => Float32.reduce_sum (map (fun y => mul y y) x))).
  rewrite (bcast_mat_row add
             (fun x c => sub (Float32.reduce_sum (map (fun y => mul y y) x))
                           (mul two (Float32.dot x c)))
             (fun x => Float32.reduce_sum (map (fun y => mul y y) x))).
  reflexivity.
Qed.


Lemma f32_euclidean_pairwise (e : ftensor2) :
  Float32.EuclideanDistance_call e
  = map (fun ei => map (fun ej =>
        mul (fsqrt (fmax (Float32.expansion ei ej) Float32.eps))
          (Float32.cast_float (geb (Float32.expansion ei ej) Float32.eps)))
        e) e.
Proof.
  unfold Float32.EuclideanDistance_call. rewrite f32_expansion_pairwise.
  unfold Float32.maximum, Float32.tsqrt, Float32.cast, Float32.greater_equal,
    Float32.bcast2.
  rewrite !map_map.
  replace (map (fun x => map fsqrt
             (map (fun x0 => fmax x0 Float32.eps)
                (map (fun ej => Float32.expansion x ej) e))) e)
    with (map (fun x => map
             (fun ej => fsqrt (fmax (Float32.expansion x ej) Float32.eps)) e)
            e)
    by (apply map_ext; intros x; now rewrite !map_map).
  replace (map (fun x => map Float32.cast_float
             (map (fun x0 => geb x0 Float32.eps)
                (map (fun ej => Float32.expansion x ej) e))) e)
    with (map (fun x => map
             (fun ej => Float32.cast_float
                          (geb (Float32.expansion x ej) Float32.eps)) e) e)
    by (apply map_ext; intros x; now rewrite !map_map).
  apply (bcast_mat_mat mul).
Qed.



End Float32Pairwise.

Section Float32Signs.
Import Tensor Float32.













End Float32Signs.

Section Float32Order.
Import Tensor Float32.
Local Open Scope R_scope.

(** 1e-18 lies between [eps] and the binary32 value just below it, so a
    binary32 value is at least 1e-18 exactly when it is at least [eps]. *)
Lemma eps_rounds_1e18 :
  F2R (S754_finite false 9671406 (-83)) < 1e-18 <= F2R Float32.eps.
Proof. unfold F2R, Float32.eps. simpl. lra. Qed.

Lemma compare_antisym (x y : float32) :
  SFcompare y x = option_map CompOpp (SFcompare x y).
Proof.
  destruct x as [sx|sx| |sx mx ex], y as [sy|sy| |sy my ey]; simpl;
    try reflexivity;
    try (destruct sx; reflexivity); try (destruct sy; reflexivity);
    try (destruct sx, sy; reflexivity).
  destruct sx, sy; try reflexivity;
    rewrite (Z.compare_antisym ex ey);
    destruct (ex ?= ey)%Z; simpl; try reflexivity;
    rewrite (Pos.compare_cont_antisym mx my Eq); simpl;
    destruct (Pos.compare_cont Eq mx my); reflexivity.
Qed.

Lemma geb_fmax (x c : float32) : geb x c = true -> fmax x c = x.
Proof.
  unfold geb, fmax, SFleb, SFltb. rewrite (compare_antisym c x).
  destruct x as [sx|sx| |sx mx ex]; cbn [is_nan orb];
    destruct c as [sc|sc| |sc mc ec]; cbn [is_nan orb];
    try discriminate;
    destruct (SFcompare _ _) as [[]|]; simpl; intros H;
    try discriminate; reflexivity.
Qed.

Lemma ltb_fmax (x c : float32) :
  SFltb x c = true -> fmax x c = c /\ geb x c = false.
Proof.
  unfold geb, fmax, SFleb, SFltb. rewrite (compare_antisym c x).
  destruct x as [sx|sx| |sx mx ex]; cbn [is_nan orb];
    destruct c as [sc|sc| |sc mc ec]; cbn [is_nan orb];
    try discriminate;
    destruct (SFcompare _ _) as [[]|]; simpl; intros H;
    try discriminate; split; reflexivity.
Qed.

Lemma iter_shr_23 (m : positive) :
  SpecFloat.iter_pos shr_1 23
    {| shr_m := Zpos (8388608 * m); shr_r := false; shr_s := false |}
  = {| shr_m := Zpos m; shr_r := false; shr_s := false |}.
Proof. reflexivity. Qed.

Lemma digits_shift_23 (m : positive) :
  Zpos (digits2_pos (8388608 * m)) = (Zpos (digits2_pos m) + 23)%Z.
Proof.
  change (digits2_pos (8388608 * m))
    with (Pos.iter Pos.succ (digits2_pos m) 23).
  cbn [Pos.iter]. rewrite !Pos2Z.inj_succ. lia.
Qed.

(** Multiplying a binary32 value by 1.0 returns it unchanged. *)
Lemma mul_one_valid (x : float32) :
  valid_binary prec emax x = true -> mul x one = x.
Proof.
  destruct x as [s|s| |s m e]; cbn [valid_binary]; intros Hv;
    try (destruct s; reflexivity); try reflexivity.
  unfold bounded, canonical_mantissa in Hv.
  apply andb_prop in Hv as [Hc Hb]. apply Z.eqb_eq in Hc.
  unfold mul, one, SFmul. rewrite xorb_false_r, Pos.mul_comm.
  unfold binary_round_aux, shr_fexp, Zdigits2.
  rewrite digits_shift_23.
  replace (Z.pos (digits2_pos m) + 23 + (e + -23))%Z
    with (Z.pos (digits2_pos m) + e)%Z by lia.
  rewrite Hc.
  replace (e - (e + -23))%Z with 23%Z by lia.
  cbn [shr shr_record_of_loc]. rewrite iter_shr_23.
  cbn [shr_m loc_of_shr_record round_nearest_even Zdigits2].
  replace (e + -23 + 23)%Z with e by lia.
  rewrite Hc, Z.sub_diag. cbn [shr shr_m]. now rewrite Hb.
Qed.

Lemma sqrt_eps_masked : mul (fsqrt Float32.eps) zero = zero.
Proof. vm_compute. reflexivity. Qed.

End Float32Order.

Section Float32Claims.
Import Tensor Float32.

(** C2, counterexample: the two binary32 embeddings 3 * 2^-12 and
    3 * 2^-12 + 3 * 2^-34 have squared L2 distance 9 * 2^-68, below 1e-18,
    yet the Euclidean kernel returns 2^-22 for the pair, not 0: the rounded
    expansion is 2^-44. *)
Lemma f32_close_embeddings_not_zero :
  (Distances.l2_squared
     (map F2R [S754_finite false 12582912 (-34)])
     (map F2R [S754_finite false 12582915 (-34)]) < 1e-18)%R
  /\ entry (expansion_matrix batch_close) 0 1
     = Some (S754_finite false 8388608 (-67))
  /\ entry (Float32.EuclideanDistance_call batch_close) 0 1
     = Some (S754_finite false 8388608 (-45))
  /\ SFeqb (S754_finite false 8388608 (-45)) zero = false.
Proof.
  split; [|repeat split; vm_compute; reflexivity].
  unfold Distances.l2_squared, Distances.squared_norm, Tensor.reduce_sum.
  simpl. lra.
Qed.

(** C2, as amended: entry (i, j) of the Euclidean kernel is the square root
    of the expansion ||e_i||^2 - 2 dot(e_i, e_j) + ||e_j||^2 as the kernel
    rounds it in binary32 when that value is at least 1e-18, exactly +0 when
    it is below 1e-18, and NaN when it is NaN; the root is multiplied by the
    mask value 1.0, which leaves a binary32 value unchanged. *)
Theorem f32_euclidean_masked_sqrt (e : ftensor2) (i j : nat)
    (ei ej : ftensor1) :
  e !! i = Some ei -> e !! j = Some ej ->
  exists d : float32,
    entry (Float32.EuclideanDistance_call e) i j = Some d
    /\ entry (expansion_matrix e) i j = Some (Float32.expansion ei ej)
    /\ (geb (Float32.expansion ei ej) Float32.eps = true ->
        d = mul (fsqrt (Float32.expansion ei ej)) one
        /\ (valid_binary prec emax (fsqrt (Float32.expansion ei ej)) = true ->
            d = fsqrt (Float32.expansion ei ej)))
    /\ (SFltb (Float32.expansion ei ej) Float32.eps = true -> d = zero)
    /\ (Float32.expansion ei ej = S754_nan -> d = S754_nan).
Proof.
  intros Hi Hj. eexists.
  rewrite f32_euclidean_pairwise, f32_expansion_pairwise.
  split; [apply (entry_pairwise _ e i j ei ej Hi Hj)|].
  split; [apply (entry_pairwise _ e i j ei ej Hi Hj)|].
  cbv beta. split; [|split].
  - intros Hge. rewrite (geb_fmax _ _ Hge), Hge.
    split; [reflexivity|]. intros Hv. now apply mul_one_valid.
  - intros Hlt. destruct (ltb_fmax _ _ Hlt) as [-> ->].
    apply sqrt_eps_masked.
  - intros ->. reflexivity.
Qed.

Lemma f32_euclidean_masked_sqrt_witness :
  batch_close !! 0%nat = Some [S754_finite false 12582912 (-34)]
  /\ batch_close !! 1%nat = Some [S754_finite false 12582915 (-34)]
  /\ exists d : float32,
      entry (Float32.EuclideanDistance_call batch_close) 0 1 = Some d
      /\ entry (expansion_matrix batch_close) 0 1
         = Some (Float32.expansion [S754_finite false 12582912 (-34)]
                   [S754_finite false 12582915 (-34)]).
Proof.
  split; [reflexivity|]. split; [reflexivity|].
  destruct (f32_euclidean_masked_sqrt batch_close 0 1
              [S754_finite false 12582912 (-34)]
              [S754_finite false 12582915 (-34)] eq_refl eq_refl)
    as (d & Hd & HE & _).
  exists d. split; [exact Hd|exact HE].
Defined.



End Float32Claims.
